(** * merge_pdf: folder-to-PDF merger

    A shallow embedding of [assets/merge_pdf.py].  The script turns every
    image of a folder into a one-page PDF (through Pillow and ReportLab),
    appends these pages and the folder's PDF files to a [PdfMerger] in
    sorted file-name order, writes the result and removes the temporary
    one-page files.

    Python's [float] is IEEE 754 binary64 with round-to-nearest-even, which
    is what Rocq's primitive [float] is: the geometry of
    [convert_image_to_pdf] is computed here with the same machine
    operations.  File names are strings of bytes ordered by code, as
    [sorted] orders them.  Exceptions and the mutable objects of the script
    (the file system, the merger, the list of temporary files, the console)
    are threaded through a state-and-exception monad in which the state
    survives a raise, as the [finally] clause needs. *)

From Stdlib Require Ascii String.
From Stdlib Require Import ZArith QArith Qpower Floats Lia Lqa.
From stdpp Require Import base option list gmap strings sorting.

Local Open Scope Z_scope.

(** ** File names: [str.lower], [str.endswith] and the suffix dispatch *)

(** [str.lower] on one character: the letters [A]..[Z] move to [a]..[z],
    every other byte is kept. *)
Definition lower_ascii (c : Ascii.ascii) : Ascii.ascii :=
  let n := Ascii.N_of_ascii c in
  if ((65 <=? n) && (n <=? 90))%N then Ascii.ascii_of_N (n + 32) else c.

Fixpoint lower (s : string) : string :=
  match s with
  | EmptyString => EmptyString
  | String c s' => String (lower_ascii c) (lower s')
  end.

(** [s.endswith(suffix)]: [s] is [suffix], or its tail ends with it. *)
Fixpoint endswith (s suffix : string) : bool :=
  String.eqb s suffix ||
  match s with
  | EmptyString => false
  | String _ s' => endswith s' suffix
  end.

(** Line 94. *)
Definition image_extensions : list string :=
  [".jpg"; ".jpeg"; ".png"; ".gif"; ".bmp"; ".tiff"]%string.

Inductive kind := Document | Image | Ignored.

(** The [if]/[elif] of lines 101 and 104; a name matching neither test is
    skipped by the loop. *)
Definition classify (filename : string) : kind :=
  if endswith (lower filename) ".pdf" then Document
  else if existsb (endswith (lower filename)) image_extensions then Image
  else Ignored.

(** ** Exceptions and Python numbers *)

Inductive exn :=
  | FileNotFoundError | NotADirectoryError | IsADirectoryError
  | UnidentifiedImageError | PdfReadError
  | ZeroDivisionError | OverflowError | ValueError
  | OSError | PermissionError | FileExistsError | DecompressionBombError.

(** [float(n)] for an [int]: exact up to [2^53] in absolute value and
    correctly rounded up to [2^63]; the integers converted here are image
    sizes and the margin. *)
Definition float_of_int (n : Z) : float :=
  if n <? 0 then (- of_uint63 (Uint63.of_Z (- n)))%float
  else of_uint63 (Uint63.of_Z n).

(** The integer a finite binary64 value truncates to, rounding toward zero. *)
Definition SFtrunc (s : bool) (m : positive) (e : Z) : Z :=
  cond_Zopp s (if 0 <=? e then Z.pos m * 2 ^ e else Z.pos m / 2 ^ (- e)).

(** [int(x)] for a [float]: truncation toward zero; [ValueError] on a NaN
    and [OverflowError] on an infinity. *)
Definition int_of_float (x : float) : exn + Z :=
  match Prim2SF x with
  | S754_nan => inl ValueError
  | S754_infinity _ => inl OverflowError
  | S754_zero _ => inr 0
  | S754_finite s m e => inr (SFtrunc s m e)
  end.

(** [x / y] on floats: [ZeroDivisionError] when [y] is a zero. *)
Definition truediv (x y : float) : exn + float :=
  if (y =? 0)%float then inl ZeroDivisionError else inr (x / y)%float.

(** [min(a, b)]: the first argument unless the second is smaller. *)
Definition py_min (a b : float) : float :=
  if (b <? a)%float then b else a.

(** ** Pillow images *)

Record image := { mode : string; width : Z; height : Z }.

Definition size (img : image) : Z * Z := (width img, height img).

(** [img.convert(m)] keeps the size. *)
Definition convert (img : image) (m : string) : image :=
  {| mode := m; width := width img; height := height img |}.

Definition INT_MAX : Z := 2 ^ 31 - 1.

(** [img.resize((w, h), LANCZOS)]: the two sizes are passed to C as [int]s,
    and Pillow refuses a size below one pixel ("height and width must be
    > 0"). *)
Definition resize (img : image) (new_size : Z * Z) : exn + image :=
  let '(w, h) := new_size in
  if (INT_MAX <? w) || (INT_MAX <? h) || (w <? - INT_MAX - 1) || (h <? - INT_MAX - 1)
  then inl OverflowError
  else if (w <? 1) || (h <? 1) then inl ValueError
  else inr {| mode := mode img; width := w; height := h |}.

(** ** Pages and files *)

(** What [canvas.Canvas(buffer, pagesize=...)], [img.save(..., 'JPEG',
    quality, dpi)], [c.drawImage(...)] and [c.showPage()] put on the one
    page of a converted image. *)
Record drawn_page := {
  pagesize : float * float;
  jpeg : image;
  jpeg_quality : Z;
  jpeg_dpi : Z;
  x_pos : float;
  y_pos : float;
  new_width : Z;
  new_height : Z;
  preserveAspectRatio : bool
}.

(** A page of a PDF file: a page that was in a source document, or the page
    drawn for an image. *)
Inductive page :=
  | SourcePage (id : N)
  | ImagePage (d : drawn_page).

(** What a file holds, as far as the two libraries can tell. *)
Inductive content :=
  | PdfData (pages : list page)
  | ImageData (img : image)
  | OtherData.

(** An entry of a directory: a file, or a subdirectory with files of its
    own. *)
Inductive node :=
  | File (c : content)
  | Directory (children : gmap string content).

(** The path given as [input_folder]: nothing there, a file, a directory,
    nothing there in a place where no entry can be made, or a symbolic link
    to nothing. *)
Inductive input_state :=
  | Absent
  | RegularFile
  | Folder (entries : gmap string node)
  | Unwritable
  | DanglingLink.

(** The paths the script opens: [os.path.join(input_folder, filename)], and
    the names it writes in the working directory. *)
Inductive path :=
  | InFolder (filename : string)
  | InCwd (name : string).

Inductive message :=
  | Successfully_created (output_pdf : string)
  | Error_occurred (e : exn)
  | Created_input_directory
  | Please_add_files.

(** The input folder is kept apart from the other entries of the working
    directory, where the temporary files and the output are written.
    [merger] and [temp_files] are the two objects of lines 90 and 91. *)
Record state := {
  input_folder : input_state;
  cwd : gmap string node;
  stdout : list message;
  merger : list page;
  temp_files : list string
}.

Definition with_input (i : input_state) (st : state) : state :=
  {| input_folder := i; cwd := cwd st; stdout := stdout st;
     merger := merger st; temp_files := temp_files st |}.

Definition with_cwd (d : gmap string node) (st : state) : state :=
  {| input_folder := input_folder st; cwd := d; stdout := stdout st;
     merger := merger st; temp_files := temp_files st |}.

Definition with_stdout (out : list message) (st : state) : state :=
  {| input_folder := input_folder st; cwd := cwd st; stdout := out;
     merger := merger st; temp_files := temp_files st |}.

Definition with_merger (pages : list page) (st : state) : state :=
  {| input_folder := input_folder st; cwd := cwd st; stdout := stdout st;
     merger := pages; temp_files := temp_files st |}.

Definition with_temp_files (l : list string) (st : state) : state :=
  {| input_folder := input_folder st; cwd := cwd st; stdout := stdout st;
     merger := merger st; temp_files := l |}.

(** ** The state-and-exception monad *)

Definition M (A : Type) : Type := state -> state * (exn + A).

Module Monad.

Definition ret {A} (a : A) : M A := fun st => (st, inr a).

Definition bind {A B} (m : M A) (k : A -> M B) : M B :=
  fun st =>
    match m st with
    | (st', inr a) => k a st'
    | (st', inl e) => (st', inl e)
    end.

Definition raise {A} (e : exn) : M A := fun st => (st, inl e).

Definition lift {A} (r : exn + A) : M A := fun st => (st, r).

Definition get : M state := fun st => (st, inr st).

Definition modify (f : state -> state) : M unit := fun st => (f st, inr tt).

(** [try: body except Exception as e: handler e] *)
Definition try_except {A} (body : M A) (handler : exn -> M A) : M A :=
  fun st =>
    match body st with
    | (st', inl e) => handler e st'
    | r => r
    end.

(** [try: body finally: final]: [final] runs either way, and what it
    raises replaces the outcome of [body]. *)
Definition try_finally {A} (body : M A) (final : M unit) : M A :=
  fun st =>
    match body st with
    | (st', r) =>
        match final st' with
        | (st'', inl e) => (st'', inl e)
        | (st'', inr _) => (st'', r)
        end
    end.

(** [for x in l: body x] *)
Fixpoint for_each {A} (l : list A) (body : A -> M unit) : M unit :=
  match l with
  | [] => ret tt
  | x :: l' => bind (body x) (fun _ => for_each l' body)
  end.

End Monad.
Import Monad.

#[global] Instance M_ret : MRet M := @ret.
#[global] Instance M_bind : MBind M := fun A B k m => bind m k.

(** Exceptions alone, for the arithmetic of the converter. *)
#[global] Instance result_ret : MRet (sum exn) := fun A a => inr a.
#[global] Instance result_bind : MBind (sum exn) :=
  fun A B k r => match r with inl e => inl e | inr a => k a end.

(** ** The operating system and the two libraries *)

(** [os.listdir(input_folder)]: the names of the entries, subdirectories
    included, in no particular order. *)
Definition os_listdir : M (list string) :=
  st ← get;
  match input_folder st with
  | Folder entries => mret (map_to_list entries).*1
  | RegularFile => raise NotADirectoryError
  | Absent | Unwritable | DanglingLink => raise FileNotFoundError
  end.

(** [sorted] on a list of [str]: ascending, character codes compared from
    the left. *)
Definition sorted (names : list string) : list string :=
  merge_sort String.le names.

(** What opening an entry for reading gives. *)
Definition open_node (o : option node) : exn + content :=
  match o with
  | Some (File c) => inr c
  | Some (Directory _) => inl IsADirectoryError
  | None => inl FileNotFoundError
  end.

Definition lookup_input (i : input_state) (filename : string) : exn + content :=
  match i with
  | Folder entries => open_node (entries !! filename)
  | RegularFile => inl NotADirectoryError
  | Absent | Unwritable | DanglingLink => inl FileNotFoundError
  end.

(** [open(p, 'rb')] and reading the file. *)
Definition read_file (p : path) : M content :=
  st ← get;
  lift match p with
       | InFolder filename => lookup_input (input_folder st) filename
       | InCwd name => open_node (cwd st !! name)
       end.

(** [open(name, 'wb')] and writing [c]: the file is created or replaced; a
    directory of that name is in the way. *)
Definition write_file (name : string) (c : content) : M unit :=
  st ← get;
  match cwd st !! name with
  | Some (Directory _) => raise IsADirectoryError
  | _ =>
      modify (fun st => with_cwd (<[name := File c]> (cwd st)) st)
  end.

(** [os.remove(name)] *)
Definition os_remove (name : string) : M unit :=
  st ← get;
  match cwd st !! name with
  | Some (File _) =>
      modify (fun st => with_cwd (delete name (cwd st)) st)
  | Some (Directory _) => raise IsADirectoryError
  | None => raise FileNotFoundError
  end.

Definition print (msg : message) : M unit :=
  modify (fun st => with_stdout (stdout st ++ [msg]) st).

(** Pillow's guard against decompression bombs: [Image.open] refuses an
    image of more than twice [MAX_IMAGE_PIXELS] pixels. *)
Definition MAX_IMAGE_PIXELS : Z := 1024 * 1024 * 1024 / 4 / 3.

Definition decompression_bomb_check (img : image) : exn + image :=
  if 2 * MAX_IMAGE_PIXELS <? Z.max 1 (width img) * Z.max 1 (height img)
  then inl DecompressionBombError
  else inr img.

(** What [Image.open] makes of the content of a file. *)
Definition image_of (c : content) : exn + image :=
  match c with
  | ImageData img => decompression_bomb_check img
  | _ => inl UnidentifiedImageError
  end.

(** [Image.open(p)] *)
Definition Image_open (p : path) : M image :=
  c ← read_file p;
  lift (image_of c).

Definition set_merger (pages : list page) : M unit :=
  modify (with_merger pages).

Definition set_temp_files (l : list string) : M unit :=
  modify (with_temp_files l).

(** [merger.append(p)]: the pages of the PDF file at [p], in their order,
    after the pages appended so far. *)
Definition merger_append (p : path) : M unit :=
  c ← read_file p;
  match c with
  | PdfData pages => st ← get; set_merger (merger st ++ pages)
  | _ => raise PdfReadError
  end.

(** [merger.write(output_pdf)] *)
Definition merger_write (output_pdf : string) : M unit :=
  st ← get; write_file output_pdf (PdfData (merger st)).

(** [merger.close()] *)
Definition merger_close : M unit := set_merger [].

(** [temp_files.append(name)] *)
Definition temp_files_append (name : string) : M unit :=
  st ← get; set_temp_files (temp_files st ++ [name]).

(** ** Image-to-page converter *)

(** ReportLab's [letter], the default page size, in points. *)
Definition letter : float * float := (612%float, 792%float).

(** ReportLab's [A4]: 210 mm by 297 mm, with [inch = 72.0],
    [cm = inch / 2.54] and [mm = cm * 0.1]. *)
Definition A4 : float * float :=
  let inch := 72%float in
  let cm := (inch / 0x1.451eb851eb852p+1)%float in
  let mm := (cm * 0x1.999999999999ap-4)%float in
  ((210 * mm)%float, (297 * mm)%float).

(** Line 37. *)
Definition margin : Z := 20.

(** Lines 38 and 39: the page less the margin on both sides. *)
Definition available (page_dimension : float) : float :=
  (page_dimension - float_of_int (2 * margin))%float.

(** Lines 42 to 51: the size the image is resized to. *)
Definition new_size (img : image) (page_size : float * float)
    (maintain_aspect_ratio : bool) : exn + (Z * Z) :=
  let '(page_width, page_height) := page_size in
  let available_width := available page_width in
  let available_height := available page_height in
  width_ratio ← truediv available_width (float_of_int (width img));
  height_ratio ← truediv available_height (float_of_int (height img));
  if maintain_aspect_ratio then
    let resize_ratio := py_min width_ratio height_ratio in
    new_width ← int_of_float (float_of_int (width img) * resize_ratio);
    new_height ← int_of_float (float_of_int (height img) * resize_ratio);
    mret (new_width, new_height)
  else
    new_width ← int_of_float available_width;
    new_height ← int_of_float available_height;
    mret (new_width, new_height).

(** Lines 57 and 58: the position that centres a block on the page. *)
Definition centred (page_dimension : float) (block : Z) : float :=
  ((page_dimension - float_of_int block) / 2)%float.

(** Lines 32 to 62: the image to draw, its position and its size. *)
Definition placement (img : image) (page_size : float * float)
    (fit_to_page maintain_aspect_ratio : bool)
    : exn + (image * (float * float) * (Z * Z)) :=
  if fit_to_page then
    '(new_width, new_height) ← new_size img page_size maintain_aspect_ratio;
    img ← resize img (new_width, new_height);
    let x_pos := centred page_size.1 new_width in
    let y_pos := centred page_size.2 new_height in
    mret (img, (x_pos, y_pos), (new_width, new_height))
  else
    mret (img, (0%float, 0%float), size img).

(** Line 72, [img.save(temp_img_buffer, format='JPEG', ...)]: the JPEG
    encoder refuses an empty image ("cannot write empty image as JPEG") and
    a side of more than 65500 pixels ([OSError]). *)
Definition JPEG_MAX_DIMENSION : Z := 65500.

Definition save_jpeg (img : image) : exn + unit :=
  if (width img <? 1) || (height img <? 1) then inl ValueError
  else if (JPEG_MAX_DIMENSION <? width img) || (JPEG_MAX_DIMENSION <? height img)
  then inl OSError
  else inr tt.

(** A number written into the page description: ReportLab's [fp_str] takes
    the integer part of the decimal logarithm of a number that is not tiny,
    and [int] raises on an infinity and on a NaN. *)
Definition fp_str (x : float) : exn + unit :=
  match Prim2SF x with
  | S754_infinity _ => inl OverflowError
  | S754_nan => inl ValueError
  | _ => inr tt
  end.

(** Lines 76 to 78, [c.drawImage(reader, x_pos, y_pos, ...)]: the position
    is written with [fp_str], [x_pos] first; the two sizes are integers. *)
Definition drawImage (x_pos y_pos : float) : exn + unit :=
  fp_str x_pos;; fp_str y_pos.

(** Lines 79 and 80, [c.showPage()] and [c.save()]: the page size is
    written, as the media box of the page, with [fp_str]. *)
Definition save_canvas (page_size : float * float) : exn + unit :=
  fp_str page_size.1;; fp_str page_size.2.

(** Lines 28 to 80: the page that ends up in the buffer. *)
Definition draw (img : image) (page_size : float * float)
    (fit_to_page maintain_aspect_ratio : bool) (quality dpi : Z)
    : exn + drawn_page :=
  let img := if String.eqb (mode img) "RGB" then img else convert img "RGB" in
  '(img, (x_pos, y_pos), (new_width, new_height)) ←
    placement img page_size fit_to_page maintain_aspect_ratio;
  save_jpeg img;;
  drawImage x_pos y_pos;;
  save_canvas page_size;;
  mret {| pagesize := page_size; jpeg := img; jpeg_quality := quality;
          jpeg_dpi := dpi; x_pos := x_pos; y_pos := y_pos;
          new_width := new_width; new_height := new_height;
          preserveAspectRatio := maintain_aspect_ratio |}.

Definition convert_image_to_pdf (image_path : path) (output_pdf_path : string)
    (page_size : float * float) (fit_to_page maintain_aspect_ratio : bool)
    (quality dpi : Z) : M unit :=
  img ← Image_open image_path;
  d ← lift (draw img page_size fit_to_page maintain_aspect_ratio quality dpi);
  write_file output_pdf_path (PdfData [ImagePage d]).

(** ** Folder merger *)

(** Line 106. *)
Definition temp_name (filename : string) : string :=
  "temp_" +:+ filename +:+ ".pdf".

(** Lines 99 to 116, the body of the loop. *)
Definition process_entry (page_size : float * float)
    (fit_to_page maintain_aspect_ratio : bool) (quality dpi : Z)
    (filename : string) : M unit :=
  let filepath := InFolder filename in
  match classify filename with
  | Document => merger_append filepath
  | Image =>
      let temp_pdf := temp_name filename in
      convert_image_to_pdf filepath temp_pdf page_size fit_to_page
        maintain_aspect_ratio quality dpi;;
      merger_append (InCwd temp_pdf);;
      temp_files_append temp_pdf
  | Ignored => mret tt
  end.

(** Lines 97 to 120, the suite of the [try]. *)
Definition merge_suite (output_pdf : string) (page_size : float * float)
    (fit_to_page maintain_aspect_ratio : bool) (quality dpi : Z) : M unit :=
  names ← os_listdir;
  for_each (sorted names)
    (process_entry page_size fit_to_page maintain_aspect_ratio quality dpi);;
  merger_write output_pdf;;
  print (Successfully_created output_pdf).

(** Lines 128 to 131: a removal that fails is passed over. *)
Definition remove_quietly (temp_file : string) : M unit :=
  try_except (os_remove temp_file) (fun _ => mret tt).

(** Lines 125 to 131, the suite of the [finally]. *)
Definition cleanup : M unit :=
  merger_close;;
  st ← get;
  for_each (temp_files st) remove_quietly.

Definition merge_all_to_pdf (output_pdf : string) (page_size : float * float)
    (fit_to_page maintain_aspect_ratio : bool) (quality dpi : Z) : M unit :=
  set_merger [];;
  set_temp_files [];;
  try_finally
    (try_except
       (merge_suite output_pdf page_size fit_to_page maintain_aspect_ratio
          quality dpi)
       (fun e => print (Error_occurred e)))
    cleanup.

(** ** The script run as a program (lines 133 to 153) *)

(** [os.path.exists(input_directory)]: a symbolic link to nothing does not
    count. *)
Definition os_path_exists : M bool :=
  st ← get;
  mret (match input_folder st with
        | RegularFile | Folder _ => true
        | Absent | Unwritable | DanglingLink => false
        end).

(** [os.makedirs(input_directory)]: the directory is made where nothing is
    and an entry can be made; anything at the path, a symbolic link to
    nothing too, is in the way. *)
Definition os_makedirs : M unit :=
  st ← get;
  match input_folder st with
  | Absent => modify (with_input (Folder ∅))
  | Unwritable => raise PermissionError
  | RegularFile | Folder _ | DanglingLink => raise FileExistsError
  end.

Definition output_pdf_file : string := "Experience.pdf".

Definition main : M unit :=
  present ← os_path_exists;
  if negb present then
    os_makedirs;;
    print Created_input_directory;;
    print Please_add_files
  else merge_all_to_pdf output_pdf_file A4 true true 90 300.

(** ** What an entry contributes *)

Definition has_suffix (filename ext : string) : Prop :=
  exists stem, lower filename = stem +:+ ext.

Definition pages_of (c : content) : exn + list page :=
  match c with PdfData pages => inr pages | _ => inl PdfReadError end.

(** The pages the entry [filename] of the folder [i] adds to the output, or
    the exception that reading or converting it raises. *)
Definition contribution (i : input_state) (page_size : float * float)
    (fit_to_page maintain_aspect_ratio : bool) (quality dpi : Z)
    (filename : string) : exn + list page :=
  match classify filename with
  | Document => c ← lookup_input i filename; pages_of c
  | Image =>
      c ← lookup_input i filename;
      img ← image_of c;
      d ← draw img page_size fit_to_page maintain_aspect_ratio quality dpi;
      mret [ImagePage d]
  | Ignored => mret []
  end.

(** The effect of an entry that contributes [pages]: a document goes to the
    merger; an image also leaves its temporary file, which is recorded. *)
Definition add_pages (k : kind) (temp_pdf : string) (pages : list page)
    (st : state) : state * (exn + unit) :=
  match k with
  | Document => (with_merger (merger st ++ pages) st, inr tt)
  | Image =>
      match cwd st !! temp_pdf with
      | Some (Directory _) => (st, inl IsADirectoryError)
      | _ =>
          (with_temp_files (temp_files st ++ [temp_pdf])
             (with_merger (merger st ++ pages)
                (with_cwd (<[temp_pdf := File (PdfData pages)]> (cwd st)) st)),
           inr tt)
      end
  | Ignored => (st, inr tt)
  end.

(** ** Vocabulary of the statements *)

(** *** Suffixes, letter case apart *)

Definition uppercase_letters : string := "ABCDEFGHIJKLMNOPQRSTUVWXYZ".
Definition lowercase_letters : string := "abcdefghijklmnopqrstuvwxyz".

(** The same character, or the same letter of the alphabet in its two
    cases. *)
Definition same_letter (a b : Ascii.ascii) : Prop :=
  a = b \/
  exists i : nat,
    String.get i uppercase_letters = Some a /\
    String.get i lowercase_letters = Some b \/
    String.get i uppercase_letters = Some b /\
    String.get i lowercase_letters = Some a.

Inductive same_up_to_case : string -> string -> Prop :=
  | same_empty : same_up_to_case "" ""
  | same_cons a b s t :
      same_letter a b -> same_up_to_case s t ->
      same_up_to_case (String a s) (String b t).

(** The name ends with [ext], written in any mix of upper and lower case. *)
Definition ends_with_ignoring_case (filename ext : string) : Prop :=
  exists stem tail, filename = stem +:+ tail /\ same_up_to_case tail ext.

(** *** Entries and runs *)

Definition is_file (o : option node) : Prop := exists c, o = Some (File c).

(** The sorted listing of a folder. *)
Definition listing (entries : gmap string node) : list string :=
  sorted (map_to_list entries).*1.

Definition recognized (filename : string) : Prop := classify filename <> Ignored.

(** How a state may differ from an earlier state of the same run while the
    loop is at work: the console and the folder are as they were, and a file
    of the working directory that changed is a recorded temporary file. *)
Record frame (st st' : state) : Prop := {
  frame_input : input_folder st' = input_folder st;
  frame_stdout : stdout st' = stdout st;
  frame_cwd : forall k,
    cwd st' !! k = cwd st !! k \/ (k ∈ temp_files st' /\ is_file (cwd st' !! k));
  frame_temp_mono : forall k, k ∈ temp_files st -> k ∈ temp_files st';
  frame_temp_new : forall k, k ∈ temp_files st' ->
    k ∈ temp_files st \/ (is_file (cwd st' !! k) /\ exists f, k = temp_name f)
}.

(** The entry [filename] of the folder puts the pages [pages] in the output:
    a document its own pages, an image the one page drawn for it, any other
    entry nothing. *)
Definition contributes (entries : gmap string node) (page_size : float * float)
    (fit_to_page maintain_aspect_ratio : bool) (quality dpi : Z)
    (filename : string) (pages : list page) : Prop :=
  match classify filename with
  | Document => entries !! filename = Some (File (PdfData pages))
  | Image =>
      exists img d,
        entries !! filename = Some (File (ImageData img)) /\
        draw img page_size fit_to_page maintain_aspect_ratio quality dpi = inr d /\
        pages = [ImagePage d]
  | Ignored => pages = []
  end.

(** The number of pages of a document entry; no other entry counts. *)
Definition document_pages (entries : gmap string node) (filename : string) : nat :=
  match classify filename, entries !! filename with
  | Document, Some (File (PdfData pages)) => length pages
  | _, _ => 0%nat
  end.

Definition is_image (filename : string) : Prop := classify filename = Image.

#[global] Instance kind_eq_dec : EqDecision kind.
Proof. solve_decision. Defined.

#[global] Instance recognized_dec filename : Decision (recognized filename).
Proof. unfold recognized. apply _. Defined.

(** The state the run starts its [try] in (lines 90 and 91). *)
Definition fresh (st : state) : state := with_temp_files [] (with_merger [] st).

(** A directory of that name: it is in the way of a file to write. *)
Definition is_directory (o : option node) : Prop :=
  exists children, o = Some (Directory children).

(** The names of the temporary files of the images of a folder, in the
    order of the loop. *)
Definition temporary_names (entries : gmap string node) : list string :=
  temp_name <$> filter is_image (listing entries).

(** Two working directories with directories under the same names. *)
Definition same_directories (d d' : gmap string node) : Prop :=
  forall k, is_directory (d !! k) <-> is_directory (d' !! k).

(** Two states the loop goes through in the same way: the same folder, the
    same pages and names collected, and directories under the same names. *)
Definition alike (st st' : state) : Prop :=
  input_folder st = input_folder st' /\ merger st = merger st' /\
  temp_files st = temp_files st' /\ same_directories (cwd st) (cwd st').

(** The directories of [st] are still there in [st']. *)
Definition keeps_directories (st st' : state) : Prop :=
  forall k, is_directory (cwd st !! k) -> cwd st' !! k = cwd st !! k.

(** Two runs that end alike: the same working directory, the same console
    and the same result. *)
Definition same_outcome (x y : state * (exn + unit)) : Prop :=
  cwd x.1 = cwd y.1 /\ stdout x.1 = stdout y.1 /\ x.2 = y.2.

(** The outcome [x] in a state where only the folder differs. *)
Definition moved {A} (i : input_state) (x : state * (exn + A)) : state * (exn + A) :=
  (with_input i x.1, x.2).

(** ** Sample folders *)

Definition start (i : input_state) : state :=
  {| input_folder := i; cwd := ∅; stdout := []; merger := []; temp_files := [] |}.

Definition rgb (w h : Z) : image := {| mode := "RGB"; width := w; height := h |}.


(** A one-page document next to a subdirectory named like a document. *)
Definition folder_with_subdirectory : gmap string node :=
  <["a.pdf" := File (PdfData [SourcePage 1])]>
    (<["sub.pdf" := Directory ∅]> ∅).

(** An image, a two-page document, an image and a text file. *)
Definition sample_folder : gmap string node :=
  <["a.png" := File (ImageData (rgb 100 100))]>
    (<["b.pdf" := File (PdfData [SourcePage 1; SourcePage 2])]>
       (<["c.jpg" := File (ImageData (rgb 200 50))]>
          (<["notes.txt" := File OtherData]> ∅))).

(** A document, a file that is no image under an image name, and a second
    document. *)
Definition folder_with_broken_image : gmap string node :=
  <["a.pdf" := File (PdfData [SourcePage 1])]>
    (<["b.png" := File OtherData]>
       (<["c.pdf" := File (PdfData [SourcePage 2])]> ∅)).

(** A CMYK image. *)
Definition cmyk (w h : Z) : image := {| mode := "CMYK"; width := w; height := h |}.

(** ** Vocabulary for binary64 values *)

(** The sign bit of a value that is not a NaN. *)
Definition sign_is (s : bool) (x : spec_float) : Prop :=
  match x with
  | S754_zero s' | S754_infinity s' | S754_finite s' _ _ => s' = s
  | S754_nan => False
  end.

(** Zero of either sign, a negative number or minus infinity. *)
Definition nonpos (x : spec_float) : Prop :=
  match x with
  | S754_zero _ => True
  | S754_infinity s | S754_finite s _ _ => s = true
  | S754_nan => False
  end.

(** A NaN, or a value that is not positive. *)
Definition nan_or_nonpos (x : spec_float) : Prop :=
  match x with
  | S754_nan | S754_zero _ => True
  | S754_infinity s | S754_finite s _ _ => s = true
  end.

(** A number [int] converts to: a positive value or plus infinity. *)
Definition positive_sf (x : spec_float) : Prop :=
  match x with
  | S754_infinity s | S754_finite s _ _ => s = false
  | _ => False
  end.

(** ** The numbers binary64 values stand for *)

Definition pow2 (e : Z) : Q := (2 ^ e)%Q.

(** The rational a finite value is; zero for the others. *)
Definition SF2Q (x : spec_float) : Q :=
  match x with
  | S754_finite s m e => (inject_Z (cond_Zopp s (Z.pos m)) * pow2 e)%Q
  | _ => 0%Q
  end.

Definition float_value (x : float) : Q := SF2Q (Prim2SF x).

(** * File names and their kinds *)

Section Suffixes.

Implicit Types s suffix stem : string.

Lemma eqb_string_true s1 s2 : String.eqb s1 s2 = true <-> s1 = s2.
Proof. apply String.eqb_eq. Qed.

Lemma endswith_refl s : endswith s s = true.
Proof. destruct s; cbn [endswith]; by rewrite String.eqb_refl. Qed.

Lemma endswith_cons a s suffix :
  endswith s suffix = true -> endswith (String a s) suffix = true.
Proof. intros H. cbn [endswith]. rewrite H. apply orb_true_r. Qed.

(** [endswith] is the suffix relation on strings. *)
Lemma endswith_spec s suffix :
  endswith s suffix = true <-> exists stem, s = stem +:+ suffix.
Proof.
  split.
  - induction s as [|a s IH]; cbn [endswith]; intros H.
    + rewrite orb_false_r in H. apply String.eqb_eq in H. by exists "".
    + apply orb_true_iff in H as [H|H].
      * apply String.eqb_eq in H. by exists "".
      * destruct (IH H) as [stem ->]. by exists (String a stem).
  - intros [stem ->]. induction stem as [|a stem IH].
    + apply endswith_refl.
    + by apply endswith_cons.
Qed.

(** Two suffixes of one string: one is a suffix of the other.  So two
    strings neither of which ends with the other never end the same
    string. *)
Lemma endswith_exclusive x y :
  endswith x y = false -> endswith y x = false ->
  forall s, endswith s x = true -> endswith s y = false.
Proof.
  intros Hxy Hyx s. induction s as [|a s IH]; cbn [endswith]; intros H.
  - rewrite orb_false_r in H. apply String.eqb_eq in H. subst x.
    rewrite orb_false_r. apply not_true_is_false. intros E.
    apply String.eqb_eq in E. subst y. discriminate Hxy.
  - apply orb_true_iff in H as [H|H].
    + apply String.eqb_eq in H. subst x. exact Hxy.
    + rewrite (IH H), orb_false_r. apply not_true_is_false. intros E.
      apply String.eqb_eq in E. subst y.
      cbn [endswith] in Hyx. rewrite H, orb_true_r in Hyx. discriminate Hyx.
Qed.

Lemma pdf_is_no_image s :
  endswith s ".pdf" = true -> existsb (endswith s) image_extensions = false.
Proof.
  intros H. unfold image_extensions. cbn [existsb].
  repeat (rewrite (endswith_exclusive ".pdf" _) with (s := s);
          [| reflexivity | reflexivity | exact H]).
  reflexivity.
Qed.

End Suffixes.



Lemma classify_Document filename :
  classify filename = Document <-> has_suffix filename ".pdf".
Proof.
  unfold classify, has_suffix. rewrite <- endswith_spec.
  destruct (endswith (lower filename) ".pdf"); [done|].
  destruct (existsb _ _); split; intros; discriminate.
Qed.

Lemma classify_Image filename :
  classify filename = Image <->
  exists ext, ext ∈ image_extensions /\ has_suffix filename ext.
Proof.
  unfold classify, has_suffix. split.
  - destruct (endswith (lower filename) ".pdf"); [discriminate|].
    destruct (existsb _ _) eqn:E; [|discriminate]. intros _.
    apply existsb_exists in E as (ext & Hin & Hext).
    exists ext. split; [by apply list_elem_of_In|by apply endswith_spec].
  - intros (ext & Hin & Hext). apply endswith_spec in Hext.
    assert (E : existsb (endswith (lower filename)) image_extensions = true).
    { apply existsb_exists. exists ext. split; [by apply list_elem_of_In|done]. }
    destruct (endswith (lower filename) ".pdf") eqn:Hpdf.
    + rewrite (pdf_is_no_image _ Hpdf) in E. discriminate.
    + by rewrite E.
Qed.

Lemma classify_Ignored filename :
  classify filename = Ignored <->
  ~ has_suffix filename ".pdf" /\
  forall ext, ext ∈ image_extensions -> ~ has_suffix filename ext.
Proof.
  split.
  - intros H. split.
    + intros Hp. apply classify_Document in Hp. congruence.
    + intros ext Hin He.
      assert (classify filename = Image) by (apply classify_Image; eauto).
      congruence.
  - intros [Hp Hi]. destruct (classify filename) eqn:E; [| |done].
    + by apply classify_Document in E.
    + apply classify_Image in E as (ext & Hin & He). by destruct (Hi ext Hin).
Qed.

(** * Running the merger *)

Ltac unfold_monad :=
  unfold mbind, mret, M_bind, M_ret, result_bind, result_ret,
    bind, ret, raise, lift, get, modify in *.

Lemma process_entry_eq page_size fit maintain quality dpi filename st :
  process_entry page_size fit maintain quality dpi filename st =
  match contribution (input_folder st) page_size fit maintain quality dpi filename with
  | inl e => (st, inl e)
  | inr pages => add_pages (classify filename) (temp_name filename) pages st
  end.
Proof.
  unfold process_entry, contribution, add_pages.
  destruct (classify filename).
  - unfold merger_append, read_file, set_merger. unfold_monad.
    destruct (lookup_input _ _) as [e|[ps|img|]]; reflexivity.
  - unfold convert_image_to_pdf, Image_open, merger_append, temp_files_append,
      read_file, write_file, set_merger, set_temp_files.
    unfold_monad.
    destruct (lookup_input _ _) as [e|c0]; try reflexivity. simpl.
    destruct (image_of c0) as [e|img]; try reflexivity. simpl.
    destruct (draw _ _ _ _ _ _) as [e|d]; try reflexivity. simpl.
    destruct (cwd st !! temp_name filename) as [[c|ch]|] eqn:E; simpl;
      rewrite ?lookup_insert_eq; reflexivity.
  - unfold_monad. simpl. by destruct st.
Qed.

Section Run.

Variables (output_pdf : string) (page_size : float * float).
Variables (fit_to_page maintain_aspect_ratio : bool) (quality dpi : Z).

Local Abbreviation process :=
  (process_entry page_size fit_to_page maintain_aspect_ratio quality dpi).
Local Abbreviation contrib i :=
  (contribution i page_size fit_to_page maintain_aspect_ratio quality dpi).
Local Abbreviation run :=
  (merge_all_to_pdf output_pdf page_size fit_to_page maintain_aspect_ratio
     quality dpi).
Local Abbreviation suite :=
  (merge_suite output_pdf page_size fit_to_page maintain_aspect_ratio
     quality dpi).

(** *** The loop *)

Lemma for_each_rel {A} (R : relation state) `{!PreOrder R}
    (body : A -> M unit) (l : list A) :
  (forall x st, R st (body x st).1) ->
  forall st, R st (for_each l body st).1.
Proof.
  intros Hbody. induction l as [|x l IH]; intros st; simpl.
  - reflexivity.
  - unfold bind. specialize (Hbody x st).
    destruct (body x st) as [st1 [e|[]]]; simpl in *; [done|].
    transitivity st1; [done|apply IH].
Qed.

(** An entry that raises leaves the loop with its exception; the
    following entries are not looked at. *)
Lemma for_each_cons_raise {A} (body : A -> M unit) x l st st1 e :
  body x st = (st1, inl e) -> for_each (x :: l) body st = (st1, inl e).
Proof. intros H. simpl. unfold bind. by rewrite H. Qed.

Lemma for_each_cons_ok {A} (body : A -> M unit) x l st st1 :
  body x st = (st1, inr tt) ->
  for_each (x :: l) body st = for_each l body st1.
Proof. intros H. simpl. unfold bind. by rewrite H. Qed.

Lemma for_each_filter {A} (P : A -> Prop) `{forall x, Decision (P x)}
    (body : A -> M unit) (l : list A) :
  (forall x st, ~ P x -> body x st = (st, inr tt)) ->
  forall st, for_each l body st = for_each (filter P l) body st.
Proof.
  intros Hskip. induction l as [|x l IH]; intros st; [done|].
  rewrite filter_cons. destruct (decide (P x)) as [HP|HP].
  - simpl. unfold bind. destruct (body x st) as [st1 [e|[]]]; [done|apply IH].
  - rewrite (for_each_cons_ok _ _ _ _ st); [apply IH|by apply Hskip].
Qed.

#[local] Instance frame_preorder : PreOrder frame.
Proof.
  split.
  - intros st. split; auto.
  - intros st1 st2 st3 [Hi1 Ho1 Hc1 Hm1 Hn1] [Hi2 Ho2 Hc2 Hm2 Hn2].
    split; [congruence|congruence|..].
    + intros k. destruct (Hc2 k) as [E2|?]; [|by right].
      destruct (Hc1 k) as [E1|[Hk Hf]]; [left; congruence|].
      right. split; [by apply Hm2|by rewrite E2].
    + auto.
    + intros k Hk. destruct (Hn2 k Hk) as [Hk2|?]; [|by right].
      destruct (Hn1 k Hk2) as [?|[Hf Hname]]; [by left|].
      right. split; [|done].
      destruct (Hc2 k) as [E2|[_ ?]]; [by rewrite E2|done].
Qed.

Lemma add_pages_frame k f pages st :
  frame st (add_pages k (temp_name f) pages st).1.
Proof.
  destruct k; simpl.
  - split; simpl; auto.
  - destruct (cwd st !! temp_name f) as [[c|ch]|] eqn:E; simpl;
      try reflexivity.
    all: split; simpl; auto.
    all: try (intros k; destruct (decide (k = temp_name f)) as [->|Hne];
      [right; rewrite lookup_insert_eq; split;
         [apply elem_of_app; right; by apply list_elem_of_singleton|by eexists]
      |left; by rewrite lookup_insert_ne]).
    all: try (intros k Hk; apply elem_of_app; by left).
    all: intros k [Hk| ->%list_elem_of_singleton]%elem_of_app; [by left|right];
      rewrite lookup_insert_eq; split; [by eexists|by exists f].
  - reflexivity.
Qed.

Lemma process_frame filename st : frame st (process filename st).1.
Proof.
  rewrite process_entry_eq. destruct (contrib _ _); simpl.
  - reflexivity.
  - apply add_pages_frame.
Qed.

Lemma loop_frame l st : frame st (for_each l process st).1.
Proof. apply for_each_rel; [apply _|apply process_frame]. Qed.

(** *** The suite of the [try] *)

Lemma suite_eq st :
  suite st =
  match input_folder st with
  | Folder entries =>
      match for_each (listing entries) process st with
      | (st1, inl e) => (st1, inl e)
      | (st1, inr _) =>
          match cwd st1 !! output_pdf with
          | Some (Directory _) => (st1, inl IsADirectoryError)
          | _ =>
              (with_stdout (stdout st1 ++ [Successfully_created output_pdf])
                 (with_cwd (<[output_pdf := File (PdfData (merger st1))]> (cwd st1)) st1),
               inr tt)
          end
      end
  | RegularFile => (st, inl NotADirectoryError)
  | Absent | Unwritable | DanglingLink => (st, inl FileNotFoundError)
  end.
Proof.
  unfold merge_suite, os_listdir, merger_write, write_file, print, listing.
  unfold_monad. destruct (input_folder st); try reflexivity.
  destruct (for_each _ _ st) as [st1 [e|[]]]; [reflexivity|]. simpl.
  destruct (cwd st1 !! output_pdf) as [[c|ch]|]; reflexivity.
Qed.

(** *** The suite of the [finally] *)

Lemma remove_quietly_eq k st :
  (forall ch, cwd st !! k <> Some (Directory ch)) ->
  remove_quietly k st = (with_cwd (delete k (cwd st)) st, inr tt).
Proof.
  intros Hk. unfold remove_quietly, try_except, os_remove. unfold_monad.
  destruct (cwd st !! k) as [[c|ch]|] eqn:E; simpl.
  - reflexivity.
  - by destruct (Hk ch).
  - rewrite delete_id by done. by destruct st.
Qed.

Lemma remove_quietly_returns k st : exists st', remove_quietly k st = (st', inr tt).
Proof.
  unfold remove_quietly, try_except, os_remove. unfold_monad.
  destruct (cwd st !! k) as [[c|ch]|]; simpl; eauto.
Qed.

Lemma remove_all_eq l st :
  (forall k, k ∈ l -> forall ch, cwd st !! k <> Some (Directory ch)) ->
  for_each l remove_quietly st = (with_cwd (foldr delete (cwd st) l) st, inr tt).
Proof.
  revert st. induction l as [|k l IH]; intros st Hl.
  - simpl. unfold ret. by destruct st.
  - assert (Hk : forall ch, cwd st !! k <> Some (Directory ch)).
    { apply Hl. by left. }
    rewrite (for_each_cons_ok _ _ _ _ _ (remove_quietly_eq k st Hk)).
    rewrite IH.
    + simpl. by rewrite delete_foldr_delete.
    + intros k' Hk' ch. simpl.
      destruct (decide (k' = k)) as [->|Hne].
      * by rewrite lookup_delete_eq.
      * rewrite lookup_delete_ne by done. apply Hl. by right.
Qed.

Lemma remove_all_returns l st :
  exists st', for_each l remove_quietly st = (st', inr tt).
Proof.
  revert st. induction l as [|k l IH]; intros st.
  - by eexists.
  - destruct (remove_quietly_returns k st) as [st1 H1].
    rewrite (for_each_cons_ok _ _ _ _ _ H1). apply IH.
Qed.

Lemma cleanup_unfold st :
  cleanup st = for_each (temp_files st) remove_quietly (with_merger [] st).
Proof. reflexivity. Qed.

Lemma cleanup_eq st :
  (forall k, k ∈ temp_files st -> forall ch, cwd st !! k <> Some (Directory ch)) ->
  cleanup st =
  (with_cwd (foldr delete (cwd st) (temp_files st)) (with_merger [] st), inr tt).
Proof. intros H. rewrite cleanup_unfold. by rewrite remove_all_eq. Qed.

(** The [finally] suite raises nothing, whatever the state it starts in. *)
Lemma cleanup_returns st : exists st', cleanup st = (st', inr tt).
Proof. rewrite cleanup_unfold. apply remove_all_returns. Qed.

(** *** What the loop accumulates *)

Lemma contribution_contributes entries filename pages :
  contrib (Folder entries) filename = inr pages ->
  contributes entries page_size fit_to_page maintain_aspect_ratio quality dpi
    filename pages.
Proof.
  unfold contribution, contributes. destruct (classify filename); simpl.
  - unfold_monad. unfold open_node.
    destruct (entries !! filename) as [[[ps|img|]|ch]|]; simpl; congruence.
  - unfold_monad. unfold open_node.
    destruct (entries !! filename) as [[[ps|img|]|ch]|]; simpl; try discriminate.
    unfold decompression_bomb_check. destruct (_ <? _); [discriminate|].
    destruct (draw _ _ _ _ _ _) as [e|d] eqn:E; simpl; [discriminate|].
    intros [= <-]. eauto.
  - unfold_monad. congruence.
Qed.

Lemma add_pages_merger k temp pages st st1 :
  add_pages k temp pages st = (st1, inr tt) ->
  k = Ignored /\ st1 = st \/ merger st1 = merger st ++ pages.
Proof.
  destruct k; simpl.
  - intros [= <-]. by right.
  - destruct (cwd st !! temp) as [[c|ch]|]; intros [= <-]; by right.
  - intros [= <-]. by left.
Qed.

Lemma loop_merger l st st1 :
  for_each l process st = (st1, inr tt) ->
  exists pss,
    Forall2 (fun f pages => contrib (input_folder st) f = inr pages) l pss /\
    merger st1 = merger st ++ concat pss.
Proof.
  revert st. induction l as [|f l IH]; intros st.
  - simpl. intros [= <-]. exists []. split; [constructor|]. simpl.
    by rewrite app_nil_r.
  - simpl. unfold bind. destruct (process f st) as [st2 [e|[]]] eqn:E; [done|].
    intros Hl. pose proof (process_frame f st) as Hfr. rewrite E in Hfr. simpl in Hfr.
    destruct (IH _ Hl) as (pss & Hpss & Hm).
    rewrite (frame_input _ _ Hfr) in Hpss.
    rewrite process_entry_eq in E.
    destruct (contrib (input_folder st) f) as [e|pages] eqn:Ec; [done|].
    exists (pages :: pss). split; [by constructor|].
    simpl. rewrite Hm.
    apply add_pages_merger in E as [[Hk ->]| ->].
    + unfold contribution in Ec. rewrite Hk in Ec. injection Ec as <-. done.
    + by rewrite app_assoc.
Qed.

(** *** The whole run *)

Lemma run_eq st :
  run st =
  match suite (fresh st) with
  | (st1, inl e) =>
      match cleanup (with_stdout (stdout st1 ++ [Error_occurred e]) st1) with
      | (st2, inl e') => (st2, inl e')
      | (st2, inr _) => (st2, inr tt)
      end
  | (st1, inr _) =>
      match cleanup st1 with
      | (st2, inl e') => (st2, inl e')
      | (st2, inr _) => (st2, inr tt)
      end
  end.
Proof.
  unfold merge_all_to_pdf, set_merger, set_temp_files, try_finally, try_except,
    print, fresh.
  unfold_monad. simpl.
  destruct (merge_suite _ _ _ _ _ _ _) as [st1 [e|[]]]; reflexivity.
Qed.

(** What the [try] suite leaves behind, whether it raised or not. *)
Lemma suite_outcome st :
  temp_files st = [] ->
  forall st1 r, suite st = (st1, r) ->
  input_folder st1 = input_folder st /\
  stdout st1 =
    stdout st ++ (if r is inr _ then [Successfully_created output_pdf] else []) /\
  (forall k, k ∈ temp_files st1 ->
     is_file (cwd st1 !! k) /\ exists f, k = temp_name f) /\
  (forall k, k = output_pdf \/ k ∈ temp_files st1 \/ cwd st1 !! k = cwd st !! k).
Proof.
  intros Htf st1 r. rewrite suite_eq.
  destruct (input_folder st) as [| |entries| |] eqn:Ei.
  1,2,4,5: intros [= <- <-]; rewrite app_nil_r, Htf;
       (split; [done|split; [done|split; [|by auto]]]);
       intros k Hk; by apply elem_of_nil in Hk.
  pose proof (loop_frame (listing entries) st) as Hfr.
  destruct (for_each (listing entries) process st) as [st2 r2]. simpl in Hfr.
  destruct Hfr as [Hi Ho Hc Hm Hn].
  assert (Htemp : forall k, k ∈ temp_files st2 ->
            is_file (cwd st2 !! k) /\ exists f, k = temp_name f).
  { intros k Hk. destruct (Hn k Hk) as [Hk'|?]; [|done].
    rewrite Htf in Hk'. by apply elem_of_nil in Hk'. }
  assert (Hcwd : forall k, k ∈ temp_files st2 \/ cwd st2 !! k = cwd st !! k).
  { intros k. destruct (Hc k) as [?|[? _]]; auto. }
  assert (Hraise :
    input_folder st2 = Folder entries /\
    stdout st2 = stdout st ++ [] /\
    (forall k, k ∈ temp_files st2 ->
       is_file (cwd st2 !! k) /\ exists f, k = temp_name f) /\
    (forall k, k = output_pdf \/ k ∈ temp_files st2 \/ cwd st2 !! k = cwd st !! k)).
  { rewrite app_nil_r.
    split; [congruence|split; [done|split; [done|]]]. intros k. right. apply Hcwd. }
  destruct r2 as [e|[]]; [intros [= <- <-]; apply Hraise|].
  destruct (cwd st2 !! output_pdf) as [[c|ch]|] eqn:Eo.
  2: intros [= <- <-]; apply Hraise.
  all: intros [= <- <-]; simpl.
  all: split; [congruence|split; [congruence|split]].
  all: try (intros k Hk; destruct (decide (k = output_pdf)) as [->|Hne];
            [rewrite lookup_insert_eq; split; [by eexists|by apply Htemp]
            |rewrite lookup_insert_ne by done; by apply Htemp]).
  all: intros k; destruct (decide (k = output_pdf)) as [->|Hne]; [by left|right];
       rewrite lookup_insert_ne by done; apply Hcwd.
Qed.

End Run.

(** * The merger's guarantees *)

Section Guarantees.

Variables (output_pdf : string) (page_size : float * float).
Variables (fit_to_page maintain_aspect_ratio : bool) (quality dpi : Z).

Local Abbreviation run :=
  (merge_all_to_pdf output_pdf page_size fit_to_page maintain_aspect_ratio
     quality dpi).
Local Abbreviation suite :=
  (merge_suite output_pdf page_size fit_to_page maintain_aspect_ratio
     quality dpi).
Local Abbreviation process :=
  (process_entry page_size fit_to_page maintain_aspect_ratio quality dpi).

(** The run in one piece: the state the [try] suite ends in, the message
    printed for an exception, then the removal of the recorded files. *)
Lemma run_outcome st st1 r :
  suite (fresh st) = (st1, r) ->
  let st2 :=
    match r with
    | inl e => with_stdout (stdout st1 ++ [Error_occurred e]) st1
    | inr _ => st1
    end in
  run st =
  (with_cwd (foldr delete (cwd st2) (temp_files st2)) (with_merger [] st2),
   inr tt).
Proof.
  intros E. rewrite run_eq, E.
  destruct (suite_outcome output_pdf page_size fit_to_page
              maintain_aspect_ratio quality dpi (fresh st) eq_refl st1 r E)
    as (_ & _ & Htemp & _).
  destruct r as [e|[]]; simpl; rewrite cleanup_eq; try reflexivity.
  all: intros k Hk ch; destruct (Htemp k Hk) as [[c Hc] _]; simpl; congruence.
Qed.

(** C4. Whatever the [try] suite raises (from the listing, a conversion, an
    append or the final write) is caught in [merge_all_to_pdf] and printed as
    an error; the function returns normally in every case, and it has then
    closed the merger and removed the recorded temporary files. *)
Theorem merge_failures_are_caught st :
  exists st',
    merge_all_to_pdf output_pdf page_size fit_to_page maintain_aspect_ratio
      quality dpi st = (st', inr tt) /\
    (forall st1 e,
       merge_suite output_pdf page_size fit_to_page maintain_aspect_ratio
         quality dpi (fresh st) = (st1, inl e) ->
       stdout st' = stdout st ++ [Error_occurred e]) /\
    (forall st1,
       merge_suite output_pdf page_size fit_to_page maintain_aspect_ratio
         quality dpi (fresh st) = (st1, inr tt) ->
       stdout st' = stdout st ++ [Successfully_created output_pdf]) /\
    merger st' = [] /\
    forall k, k ∈ temp_files st' -> cwd st' !! k = None.
Proof.
  destruct (suite (fresh st)) as [st1 r] eqn:E.
  pose proof (run_outcome st st1 r E) as Hrun. simpl in Hrun.
  destruct (suite_outcome output_pdf page_size fit_to_page
              maintain_aspect_ratio quality dpi (fresh st) eq_refl st1 r E)
    as (_ & Hout & _ & _).
  eexists. split; [exact Hrun|]. simpl in Hout.
  split; [|split; [|split]].
  - intros st1' e [= ? ?]. subst. simpl. rewrite Hout. by rewrite app_nil_r.
  - intros st1' [= ? ?]. subst. simpl. by rewrite Hout.
  - reflexivity.
  - intros k Hk. simpl in *. by apply lookup_foldr_delete.
Qed.

(** C2. After a run, whether it succeeded or failed, the temporary files
    it recorded are gone, and every other name of the working directory,
    the output apart, is absent or holds what it held before the run: no
    file the run created is left, except the output. *)
Theorem no_temporary_file_remains st k :
  let st' :=
    (merge_all_to_pdf output_pdf page_size fit_to_page maintain_aspect_ratio
       quality dpi st).1 in
  (k ∈ temp_files st' -> cwd st' !! k = None) /\
  (k = output_pdf \/ cwd st' !! k = None \/ cwd st' !! k = cwd st !! k).
Proof.
  destruct (suite (fresh st)) as [st1 r] eqn:E.
  rewrite (run_outcome st st1 r E). simpl.
  destruct (suite_outcome output_pdf page_size fit_to_page
              maintain_aspect_ratio quality dpi (fresh st) eq_refl st1 r E)
    as (_ & _ & _ & Hcwd).
  assert (Hgoal : forall st2, cwd st2 = cwd st1 -> temp_files st2 = temp_files st1 ->
    (k ∈ temp_files st2 -> foldr delete (cwd st2) (temp_files st2) !! k = None) /\
    (k = output_pdf \/ foldr delete (cwd st2) (temp_files st2) !! k = None \/
     foldr delete (cwd st2) (temp_files st2) !! k = cwd st !! k)).
  { intros st2 -> ->. split; [apply lookup_foldr_delete|].
    destruct (decide (k ∈ temp_files st1)) as [Hk|Hk].
    - right. left. by apply lookup_foldr_delete.
    - rewrite lookup_foldr_delete_not_elem_of by done.
      destruct (Hcwd k) as [?|[?|Hsame]]; [by left|done|].
      right. right. exact Hsame. }
  destruct r as [e|[]]; by apply Hgoal.
Qed.

Lemma contributes_length entries filename pages :
  contributes entries page_size fit_to_page maintain_aspect_ratio quality dpi
    filename pages ->
  length pages =
  (document_pages entries filename + if decide (is_image filename) then 1 else 0)%nat.
Proof.
  unfold contributes, document_pages, is_image.
  destruct (classify filename); case_decide; try discriminate; try done.
  - intros ->. by rewrite Nat.add_0_r.
  - by intros (img & d & _ & _ & ->).
  - by intros ->.
Qed.

Lemma page_count entries l pss :
  Forall2 (contributes entries page_size fit_to_page maintain_aspect_ratio
             quality dpi) l pss ->
  length (concat pss) =
  (sum_list (document_pages entries <$> l) + length (filter is_image l))%nat.
Proof.
  induction 1 as [|f pages l pss Hf _ IH]; [reflexivity|].
  csimpl. rewrite length_app, IH, (contributes_length _ _ _ Hf), filter_cons.
  destruct (decide (is_image f)); csimpl; lia.
Qed.

(** C1. When the run succeeds, the output file holds the pages of the
    recognized entries, concatenated in ascending file-name order: a document
    gives its pages in their order and an image the one page drawn for it;
    so the page count is the documents' page counts plus the number of
    images. *)
Theorem merged_pages_in_filename_order st entries :
  input_folder st = Folder entries ->
  (forall filename, output_pdf <> temp_name filename) ->
  stdout (merge_all_to_pdf output_pdf page_size fit_to_page
            maintain_aspect_ratio quality dpi st).1 =
    stdout st ++ [Successfully_created output_pdf] ->
  Sorted String.le (listing entries) /\
  listing entries ≡ₚ (map_to_list entries).*1 /\
  exists pss,
    Forall2 (contributes entries page_size fit_to_page maintain_aspect_ratio
               quality dpi) (listing entries) pss /\
    cwd (merge_all_to_pdf output_pdf page_size fit_to_page
           maintain_aspect_ratio quality dpi st).1 !! output_pdf =
      Some (File (PdfData (concat pss))) /\
    length (concat pss) =
    (sum_list (document_pages entries <$> listing entries) +
     length (filter is_image (listing entries)))%nat.
Proof.
  intros Hin Hout Hmsg.
  split; [apply Sorted_merge_sort, _|].
  split; [apply merge_sort_Permutation|].
  destruct (suite (fresh st)) as [st1 r] eqn:E.
  pose proof (suite_outcome output_pdf page_size fit_to_page
                maintain_aspect_ratio quality dpi (fresh st) eq_refl st1 r E)
    as (_ & Hstdout & Htemp & _).
  rewrite (run_outcome st st1 r E) in Hmsg |- *. simpl in Hmsg, Hstdout |- *.
  destruct r as [e|[]].
  { simpl in Hmsg. rewrite Hstdout, app_nil_r in Hmsg.
    apply app_inv_head in Hmsg. discriminate. }
  assert (Hkeep : output_pdf ∉ temp_files st1).
  { intros Hk. destruct (Htemp _ Hk) as [_ [f Hf]]. by apply (Hout f). }
  rewrite lookup_foldr_delete_not_elem_of by done.
  rewrite suite_eq in E. simpl in E. rewrite Hin in E.
  destruct (for_each (listing entries) process (fresh st)) as [st2 [e|[]]] eqn:El;
    [discriminate|].
  destruct (loop_merger _ _ _ _ _ _ _ _ El) as (pss & Hpss & Hm).
  simpl in Hpss, Hm. rewrite Hin in Hpss.
  assert (Hc : Forall2 (contributes entries page_size fit_to_page
                          maintain_aspect_ratio quality dpi) (listing entries) pss).
  { eapply Forall2_impl; [exact Hpss|]. intros f ps. apply contribution_contributes. }
  exists pss. split; [exact Hc|]. split; [|by apply page_count].
  destruct (cwd st2 !! output_pdf) as [[c|ch]|]; try discriminate.
  all: injection E as <-; simpl; by rewrite lookup_insert_eq, Hm.
Qed.

End Guarantees.

(** * Entries that do not matter *)

Lemma StronglySorted_filter {A} (R : relation A) (P : A -> Prop)
    `{forall x, Decision (P x)} (l : list A) :
  StronglySorted R l -> StronglySorted R (filter P l).
Proof.
  induction 1 as [|x l Hl IH Hx]; [constructor|].
  rewrite filter_cons. destruct (decide (P x)); [|done].
  constructor; [done|].
  apply Forall_forall. intros y Hy%list_elem_of_filter.
  rewrite Forall_forall in Hx. apply Hx, Hy.
Qed.

(** Folders with the same recognized names list them in the same order. *)
Lemma recognized_listing entries entries' :
  filter recognized (map_to_list entries).*1 ≡ₚ
    filter recognized (map_to_list entries').*1 ->
  filter recognized (listing entries) = filter recognized (listing entries').
Proof.
  intros Hp. unfold listing, sorted.
  apply (StronglySorted_unique String.le).
  - apply StronglySorted_filter, StronglySorted_merge_sort; apply _.
  - apply StronglySorted_filter, StronglySorted_merge_sort; apply _.
  - by rewrite !merge_sort_Permutation.
Qed.

Lemma keys_delete (entries : gmap string node) name :
  classify name = Ignored ->
  filter recognized (map_to_list (delete name entries)).*1 ≡ₚ
    filter recognized (map_to_list entries).*1.
Proof.
  intros Hn. destruct (entries !! name) as [x|] eqn:E.
  - rewrite <- (map_to_list_delete entries name x E). csimpl.
    rewrite filter_cons_False; [done|]. unfold recognized. by rewrite Hn; intros [].
  - by rewrite delete_id.
Qed.

Lemma keys_insert (entries : gmap string node) name x y :
  entries !! name = Some x ->
  (map_to_list (<[name := y]> entries)).*1 ≡ₚ (map_to_list entries).*1.
Proof.
  intros E. rewrite <- (insert_delete_eq entries name y).
  rewrite map_to_list_insert by apply lookup_delete_eq.
  by rewrite <- (map_to_list_delete entries name x E).
Qed.

Section Simulation.

Variables (output_pdf : string) (page_size : float * float).
Variables (fit_to_page maintain_aspect_ratio : bool) (quality dpi : Z).

Local Abbreviation run :=
  (merge_all_to_pdf output_pdf page_size fit_to_page maintain_aspect_ratio
     quality dpi).
Local Abbreviation suite :=
  (merge_suite output_pdf page_size fit_to_page maintain_aspect_ratio
     quality dpi).
Local Abbreviation process :=
  (process_entry page_size fit_to_page maintain_aspect_ratio quality dpi).
Local Abbreviation contrib i :=
  (contribution i page_size fit_to_page maintain_aspect_ratio quality dpi).

Lemma add_pages_moved i k temp pages st :
  add_pages k temp pages (with_input i st) = moved i (add_pages k temp pages st).
Proof.
  unfold moved. destruct k; simpl; try reflexivity.
  destruct (cwd st !! temp) as [[c|ch]|]; reflexivity.
Qed.

Lemma process_moved i filename st :
  contrib i filename = contrib (input_folder st) filename ->
  process filename (with_input i st) = moved i (process filename st).
Proof.
  intros H. rewrite !process_entry_eq. simpl. rewrite H.
  destruct (contrib (input_folder st) filename); [reflexivity|].
  apply add_pages_moved.
Qed.

Lemma loop_moved i l st :
  Forall (fun f => contrib i f = contrib (input_folder st) f) l ->
  for_each l process (with_input i st) = moved i (for_each l process st).
Proof.
  revert st. induction l as [|f l IH]; intros st Hl; [reflexivity|].
  apply Forall_cons in Hl as [Hf Hl].
  simpl. unfold bind. rewrite (process_moved _ _ _ Hf).
  pose proof (process_frame page_size fit_to_page maintain_aspect_ratio
                quality dpi f st) as Hfr.
  destruct (process f st) as [st1 [e|[]]]; simpl in *; [reflexivity|].
  apply IH. by rewrite (frame_input _ _ Hfr).
Qed.

Lemma loop_recognized l st :
  for_each l process st = for_each (filter recognized l) process st.
Proof.
  apply for_each_filter. intros f st' Hf.
  assert (E : classify f = Ignored).
  { unfold recognized in Hf.
    destruct (classify f); [exfalso; apply Hf; discriminate..|reflexivity]. }
  rewrite process_entry_eq. unfold contribution, add_pages. by rewrite E.
Qed.

Lemma remove_all_moved i l st :
  for_each l remove_quietly (with_input i st) =
  moved i (for_each l remove_quietly st).
Proof.
  revert st. induction l as [|k l IH]; intros st; [reflexivity|].
  simpl. unfold bind.
  assert (Hk : remove_quietly k (with_input i st) = moved i (remove_quietly k st)).
  { unfold remove_quietly, try_except, os_remove. unfold_monad. simpl.
    destruct (cwd st !! k) as [[c|ch]|]; reflexivity. }
  rewrite Hk. destruct (remove_quietly k st) as [st1 [e|[]]]; simpl; [reflexivity|].
  apply IH.
Qed.

Lemma cleanup_moved i st : cleanup (with_input i st) = moved i (cleanup st).
Proof. rewrite !cleanup_unfold. apply (remove_all_moved i _ (with_merger [] st)). Qed.

(** The run reads the folder through its recognized names only. *)
Lemma run_moved st entries entries' :
  input_folder st = Folder entries ->
  filter recognized (listing entries') = filter recognized (listing entries) ->
  (forall f, recognized f -> contrib (Folder entries') f = contrib (Folder entries) f) ->
  run (with_input (Folder entries') st) = moved (Folder entries') (run st).
Proof.
  intros Hin Hl Hc.
  assert (Hsuite : suite (fresh (with_input (Folder entries') st)) =
                   moved (Folder entries') (suite (fresh st))).
  { rewrite !suite_eq. simpl. rewrite Hin.
    rewrite (loop_recognized (listing entries')), Hl.
    change (fresh (with_input (Folder entries') st))
      with (with_input (Folder entries') (fresh st)).
    rewrite loop_moved.
    - rewrite <- loop_recognized.
      destruct (for_each (listing entries) process (fresh st)) as [st1 [e|[]]];
        simpl; [reflexivity|].
      destruct (cwd st1 !! output_pdf) as [[c|ch]|]; reflexivity.
    - apply Forall_forall. intros f Hf%list_elem_of_filter.
      simpl. rewrite Hin. apply Hc, Hf. }
  rewrite !run_eq, Hsuite.
  destruct (suite (fresh st)) as [st1 [e|[]]]; simpl.
  - change (with_stdout (stdout st1 ++ [Error_occurred e]) (with_input (Folder entries') st1))
      with (with_input (Folder entries') (with_stdout (stdout st1 ++ [Error_occurred e]) st1)).
    rewrite cleanup_moved.
    by destruct (cleanup _) as [st2 [e'|[]]].
  - rewrite cleanup_moved. by destruct (cleanup _) as [st2 [e'|[]]].
Qed.

Lemma moved_same_outcome i (x : state * (exn + unit)) : same_outcome (moved i x) x.
Proof. by destruct x. Qed.

(** An entry that raises stops the loop, there or before. *)
Lemma loop_raises i f l :
  f ∈ l ->
  (forall st, input_folder st = i -> exists e, process f st = (st, inl e)) ->
  forall st, input_folder st = i ->
  exists st1 e, for_each l process st = (st1, inl e).
Proof.
  intros Hf Hraise. induction l as [|g l IH]; intros st Hi.
  - by apply elem_of_nil in Hf.
  - simpl. unfold bind.
    pose proof (process_frame page_size fit_to_page maintain_aspect_ratio
                  quality dpi g st) as Hfr.
    destruct (process g st) as [st1 [e|[]]] eqn:Eg; [by eauto|].
    apply elem_of_cons in Hf as [->|Hf].
    + destruct (Hraise st Hi) as [e He]. congruence.
    + apply IH; [done|]. simpl in Hfr. by rewrite (frame_input _ _ Hfr).
Qed.

End Simulation.

Lemma contribution_delete entries name page_size fit maintain quality dpi f :
  f <> name ->
  contribution (Folder (delete name entries)) page_size fit maintain quality dpi f =
  contribution (Folder entries) page_size fit maintain quality dpi f.
Proof.
  intros Hne. unfold contribution, lookup_input. by rewrite lookup_delete_ne.
Qed.

Lemma run_without_ignored output_pdf page_size fit maintain quality dpi
    st entries name :
  classify name = Ignored ->
  input_folder st = Folder entries ->
  same_outcome
    (merge_all_to_pdf output_pdf page_size fit maintain quality dpi
       (with_input (Folder (delete name entries)) st))
    (merge_all_to_pdf output_pdf page_size fit maintain quality dpi st).
Proof.
  intros Hn Hin. rewrite (run_moved _ _ _ _ _ _ st entries); [apply moved_same_outcome|done|..].
  - apply recognized_listing, keys_delete, Hn.
  - intros f Hf. apply contribution_delete. intros ->. by apply Hf.
Qed.

(** * Letter case *)

Ltac find_letter n :=
  lazymatch n with
  | 26%nat => fail
  | _ => first [ exists n; left; split; reflexivity | find_letter (S n) ]
  end.

(** [str.lower] turns a character into the same letter. *)
Lemma lower_ascii_same_letter a : same_letter a (lower_ascii a).
Proof.
  destruct a as [b0 b1 b2 b3 b4 b5 b6 b7].
  destruct b0, b1, b2, b3, b4, b5, b6, b7;
    first [ left; reflexivity | right; find_letter 0%nat ].
Qed.

Lemma same_letter_lower_ascii a b : same_letter a b -> lower_ascii a = lower_ascii b.
Proof.
  intros [->|[i Hi]]; [reflexivity|].
  do 26 (destruct i as [|i];
         [destruct Hi as [[[= <-] [= <-]]|[[= <-] [= <-]]]; reflexivity|]).
  destruct Hi as [[Hi _]|[Hi _]]; discriminate Hi.
Qed.

Lemma same_up_to_case_lower s t : same_up_to_case s t -> lower s = lower t.
Proof.
  induction 1 as [|a b s t Hab _ IH]; [reflexivity|].
  simpl. by rewrite (same_letter_lower_ascii a b Hab), IH.
Qed.

Lemma lower_same_up_to_case s : same_up_to_case s (lower s).
Proof.
  induction s as [|a s IH]; [constructor|].
  simpl. constructor; [apply lower_ascii_same_letter|exact IH].
Qed.

Lemma lower_app s t : lower (s +:+ t) = lower s +:+ lower t.
Proof. induction s as [|a s IH]; [reflexivity|]. simpl. by rewrite IH. Qed.

Lemma lower_app_inv f u v :
  lower f = u +:+ v -> exists s t, f = s +:+ t /\ lower s = u /\ lower t = v.
Proof.
  revert f. induction u as [|c u IH]; intros f H.
  - by exists "", f.
  - destruct f as [|a f]; [discriminate|]. simpl in H. injection H as Hc Hf.
    destruct (IH f Hf) as (s & t & -> & Hs & Ht).
    exists (String a s), t. simpl. by rewrite Hc, Hs.
Qed.

(** A suffix written in lower case is found in the lowered name exactly
    when the name ends with it, letter case apart. *)
Lemma has_suffix_ignoring_case filename ext :
  lower ext = ext ->
  has_suffix filename ext <-> ends_with_ignoring_case filename ext.
Proof.
  intros Hext. split.
  - intros [stem (s & t & -> & _ & Ht)%lower_app_inv].
    exists s, t. split; [done|]. rewrite <- Ht. apply lower_same_up_to_case.
  - intros (stem & tail & -> & Hsame). exists (lower stem).
    by rewrite lower_app, (same_up_to_case_lower _ _ Hsame), Hext.
Qed.

Lemma image_extensions_lower ext : ext ∈ image_extensions -> lower ext = ext.
Proof.
  unfold image_extensions. rewrite !elem_of_cons, elem_of_nil.
  intros [->|[->|[->|[->|[->|[->|[]]]]]]]; reflexivity.
Qed.

(** C6. The suffix of a name decides its kind, in whatever mix of upper and
    lower case it is written: [.pdf] a document, one of the six image
    suffixes an image, anything else ignored; and an ignored entry changes
    nothing: the run ends as it does on the folder without that entry. *)
Theorem entries_are_classified_by_suffix filename :
  (classify filename = Document <-> ends_with_ignoring_case filename ".pdf") /\
  (classify filename = Image <->
     exists ext, ext ∈ image_extensions /\ ends_with_ignoring_case filename ext) /\
  (classify filename = Ignored <->
     ~ ends_with_ignoring_case filename ".pdf" /\
     forall ext, ext ∈ image_extensions -> ~ ends_with_ignoring_case filename ext) /\
  (classify filename = Ignored ->
   forall output_pdf page_size fit maintain quality dpi st entries,
     input_folder st = Folder entries ->
     same_outcome
       (merge_all_to_pdf output_pdf page_size fit maintain quality dpi
          (with_input (Folder (delete filename entries)) st))
       (merge_all_to_pdf output_pdf page_size fit maintain quality dpi st)).
Proof.
  assert (forall ext, ext ∈ image_extensions ->
            has_suffix filename ext <-> ends_with_ignoring_case filename ext) as Himg.
  { intros ext Hext. by apply has_suffix_ignoring_case, image_extensions_lower. }
  pose proof (has_suffix_ignoring_case filename ".pdf" eq_refl) as Hpdf.
  split; [rewrite <- Hpdf; apply classify_Document|].
  split.
  { rewrite classify_Image. split; intros (ext & Hin & Hext); exists ext;
      (split; [done|]); by apply (Himg ext Hin). }
  split.
  { rewrite classify_Ignored, Hpdf. split; intros [Hp Hi]; (split; [done|]);
      intros ext Hin Hext; apply (Hi ext Hin); by apply (Himg ext Hin). }
  intros Hn **. by apply run_without_ignored.
Qed.

Example classify_examples :
  classify "scan.PDF" = Document /\ classify "photo.JpEg" = Image /\
  classify "x.tiff" = Image /\ classify "notes.txt" = Ignored /\
  classify "pdf" = Ignored /\ classify "archive.pdf.zip" = Ignored.
Proof. repeat split. Qed.

(** The text file of the sample folder is passed over. *)
Example sample_run :
  let st := (merge_all_to_pdf "out.pdf" letter true true 85 300
               (start (Folder sample_folder))).1 in
  stdout st = [Successfully_created "out.pdf"] /\
  dom (cwd st) = {["out.pdf"]} /\
  exists a c,
    cwd st !! "out.pdf" =
    Some (File (PdfData [ImagePage a; SourcePage 1; SourcePage 2; ImagePage c])) /\
    (new_width a, new_height a) = (572, 572) /\
    (new_width c, new_height c) = (572, 143).
Proof.
  vm_compute. split; [reflexivity|]. split; [reflexivity|].
  do 2 eexists. split; [reflexivity|]. split; reflexivity.
Qed.

(** The sample folder: four pages, from two images and a document. *)
Lemma merged_pages_witness :
  Sorted String.le (listing sample_folder) /\
  listing sample_folder ≡ₚ (map_to_list sample_folder).*1 /\
  exists pss,
    Forall2 (contributes sample_folder letter true true 85 300)
      (listing sample_folder) pss /\
    cwd (merge_all_to_pdf "out.pdf" letter true true 85 300
           (start (Folder sample_folder))).1 !! "out.pdf" =
      Some (File (PdfData (concat pss))) /\
    length (concat pss) =
    (sum_list (document_pages sample_folder <$> listing sample_folder) +
     length (filter is_image (listing sample_folder)))%nat.
Proof.
  apply (merged_pages_in_filename_order "out.pdf" letter true true 85 300
           (start (Folder sample_folder)) sample_folder).
  - reflexivity.
  - intros filename H. cbv in H. discriminate H.
  - vm_compute. reflexivity.
Defined.

(** * Subdirectories *)

(** C7, as stated, fails: a subdirectory whose name ends in [.pdf] is
    handed to the merger like a file; the run reports an error and writes no
    output, while without the subdirectory it writes the document. *)
Lemma subdirectory_named_like_a_document_fails :
  let with_it :=
    merge_all_to_pdf "out.pdf" letter true true 85 300
      (start (Folder folder_with_subdirectory)) in
  let without_it :=
    merge_all_to_pdf "out.pdf" letter true true 85 300
      (start (Folder (delete "sub.pdf" folder_with_subdirectory))) in
  stdout with_it.1 = [Error_occurred IsADirectoryError] /\
  cwd with_it.1 !! "out.pdf" = None /\
  stdout without_it.1 = [Successfully_created "out.pdf"] /\
  cwd without_it.1 !! "out.pdf" = Some (File (PdfData [SourcePage 1])) /\
  ~ same_outcome with_it without_it.
Proof.
  vm_compute. repeat split; try reflexivity.
  intros (_ & H & _). discriminate H.
Qed.

Lemma contribution_directory entries name children page_size fit maintain quality dpi :
  entries !! name = Some (Directory children) ->
  recognized name ->
  contribution (Folder entries) page_size fit maintain quality dpi name =
  inl IsADirectoryError.
Proof.
  intros E Hr. unfold contribution, lookup_input. rewrite E.
  unfold recognized in Hr. by destruct (classify name).
Qed.

(** C7, amended.  The listing is not recursive: what a subdirectory holds is
    never read.  A subdirectory whose name has no recognized suffix changes
    nothing.  One whose name ends in [.pdf] or in an image suffix is opened
    like a file, which raises: the run prints an error. *)
Theorem subdirectory_is_judged_by_its_name output_pdf page_size fit maintain
    quality dpi st entries name children :
  input_folder st = Folder entries ->
  entries !! name = Some (Directory children) ->
  (forall children',
     same_outcome
       (merge_all_to_pdf output_pdf page_size fit maintain quality dpi
          (with_input (Folder (<[name := Directory children']> entries)) st))
       (merge_all_to_pdf output_pdf page_size fit maintain quality dpi st)) /\
  (classify name = Ignored ->
     same_outcome
       (merge_all_to_pdf output_pdf page_size fit maintain quality dpi
          (with_input (Folder (delete name entries)) st))
       (merge_all_to_pdf output_pdf page_size fit maintain quality dpi st)) /\
  (classify name <> Ignored ->
     exists e,
       stdout (merge_all_to_pdf output_pdf page_size fit maintain quality dpi st).1 =
       stdout st ++ [Error_occurred e]).
Proof.
  intros Hin E. split; [|split].
  - intros children'.
    rewrite (run_moved _ _ _ _ _ _ st entries); [apply moved_same_outcome|done|..].
    + apply recognized_listing. by rewrite (keys_insert _ _ _ _ E).
    + intros f Hf. destruct (decide (f = name)) as [->|Hne].
      * rewrite (contribution_directory _ _ children') by (by rewrite ?lookup_insert_eq).
        by rewrite (contribution_directory _ _ children).
      * unfold contribution, lookup_input. by rewrite lookup_insert_ne.
  - intros Hn. by apply run_without_ignored.
  - intros Hr.
    destruct (loop_raises page_size fit maintain quality dpi (Folder entries) name
                (listing entries)) with (st := fresh st) as (st1 & e & Hloop).
    + unfold listing, sorted. rewrite merge_sort_Permutation.
      apply list_elem_of_fmap. exists (name, Directory children).
      split; [done|]. by apply elem_of_map_to_list.
    + intros st' Hst'. exists IsADirectoryError. rewrite process_entry_eq, Hst'.
      by rewrite (contribution_directory _ _ children).
    + done.
    + assert (Hs : merge_suite output_pdf page_size fit maintain quality dpi (fresh st)
                   = (st1, inl e)).
      { rewrite suite_eq. simpl. by rewrite Hin, Hloop. }
      exists e. rewrite (run_outcome _ _ _ _ _ _ _ _ _ Hs). simpl.
      destruct (suite_outcome _ _ _ _ _ _ (fresh st) eq_refl _ _ Hs) as (_ & -> & _).
      simpl. by rewrite app_nil_r.
Qed.

Lemma subdirectory_witness :
  (forall children',
     same_outcome
       (merge_all_to_pdf "out.pdf" letter true true 85 300
          (with_input (Folder (<["sub.pdf" := Directory children']> folder_with_subdirectory))
             (start (Folder folder_with_subdirectory))))
       (merge_all_to_pdf "out.pdf" letter true true 85 300
          (start (Folder folder_with_subdirectory)))) /\
  exists e,
    stdout (merge_all_to_pdf "out.pdf" letter true true 85 300
              (start (Folder folder_with_subdirectory))).1 = [] ++ [Error_occurred e].
Proof.
  destruct (subdirectory_is_judged_by_its_name "out.pdf" letter true true 85 300
              (start (Folder folder_with_subdirectory)) folder_with_subdirectory
              "sub.pdf" ∅ eq_refl eq_refl) as (H1 & _ & H3).
  split; [exact H1|]. apply H3. vm_compute. discriminate.
Defined.

(** * The converter without fitting *)

Lemma Image_open_state p st : (Image_open p st).1 = st.
Proof.
  unfold Image_open, read_file. unfold_monad.
  destruct p; simpl.
  - by destruct (lookup_input _ _) as [e|[ps|img|]].
  - by destruct (open_node _) as [e|[ps|img|]].
Qed.

(** A conversion that returns has opened the image, drawn its page and
    written it. *)
Lemma convert_returns image_path output_pdf_path page_size fit maintain quality dpi
    st st' :
  convert_image_to_pdf image_path output_pdf_path page_size fit maintain quality dpi
    st = (st', inr tt) ->
  exists img d,
    Image_open image_path st = (st, inr img) /\
    draw img page_size fit maintain quality dpi = inr d /\
    st' = with_cwd (<[output_pdf_path := File (PdfData [ImagePage d])]> (cwd st)) st.
Proof.
  unfold convert_image_to_pdf, write_file. unfold_monad.
  pose proof (Image_open_state image_path st) as Hst.
  destruct (Image_open image_path st) as [st1 [e|img]]; simpl in Hst; subst st1;
    [done|].
  simpl. destruct (draw _ _ _ _ _ _) as [e|d] eqn:Hd; [done|].
  destruct (cwd st !! output_pdf_path) as [[c|ch]|]; simpl; try done.
  all: intros [= <-]; by exists img, d.
Qed.

(** A page that is drawn: the placement, and the three steps that can
    still raise after it. *)
Lemma draw_inv img page_size fit maintain quality dpi d :
  draw img page_size fit maintain quality dpi = inr d ->
  exists img' x y nw nh,
    placement (if String.eqb (mode img) "RGB" then img else convert img "RGB")
      page_size fit maintain = inr (img', (x, y), (nw, nh)) /\
    save_jpeg img' = inr tt /\ drawImage x y = inr tt /\
    save_canvas page_size = inr tt /\
    d = {| pagesize := page_size; jpeg := img'; jpeg_quality := quality;
           jpeg_dpi := dpi; x_pos := x; y_pos := y;
           new_width := nw; new_height := nh;
           preserveAspectRatio := maintain |}.
Proof.
  unfold draw. unfold_monad.
  destruct (placement _ _ _ _) as [e|[[img' [x y]] [nw nh]]]; [done|].
  destruct (save_jpeg img') as [e|[]] eqn:H1; [done|].
  destruct (drawImage x y) as [e|[]] eqn:H2; [done|].
  destruct (save_canvas page_size) as [e|[]] eqn:H3; [done|].
  intros [= <-]. by exists img', x, y, nw, nh.
Qed.

Lemma draw_original_size img page_size maintain quality dpi d :
  draw img page_size false maintain quality dpi = inr d ->
  pagesize d = page_size /\
  x_pos d = 0%float /\ y_pos d = 0%float /\
  (new_width d, new_height d) = size img /\
  size (jpeg d) = size img /\
  jpeg_dpi d = dpi.
Proof.
  intros (img' & x & y & nw & nh & Hp & _ & _ & _ & ->)%draw_inv.
  revert Hp. unfold placement. unfold_monad.
  destruct (String.eqb (mode img) "RGB"); by intros [= <- <- <- <- <-].
Qed.

(** C8. With [fit_to_page] off, a conversion that returns has drawn the
    image at the origin of the page at its own size in pixels: it is not
    resized, the resolution only tags the encoded image, and the page size
    plays no part, so the drawing may run over the page. *)
Theorem original_size_at_origin image_path output_pdf_path page_size maintain
    quality dpi st st' :
  convert_image_to_pdf image_path output_pdf_path page_size false maintain
    quality dpi st = (st', inr tt) ->
  exists img d,
    Image_open image_path st = (st, inr img) /\
    st' = with_cwd (<[output_pdf_path := File (PdfData [ImagePage d])]> (cwd st)) st /\
    pagesize d = page_size /\
    x_pos d = 0%float /\ y_pos d = 0%float /\
    (new_width d, new_height d) = size img /\
    size (jpeg d) = size img /\
    jpeg_dpi d = dpi.
Proof.
  intros (img & d & Hopen & Hd & Hst)%convert_returns.
  exists img, d. split; [done|]. split; [done|].
  by apply (draw_original_size img page_size maintain quality).
Qed.

(** A 5000 by 4000 image on a letter page, which is 612 by 792. *)
Lemma original_size_witness :
  exists img d,
    Image_open (InFolder "big.png")
      (start (Folder {["big.png" := File (ImageData (rgb 5000 4000))]})) =
      (start (Folder {["big.png" := File (ImageData (rgb 5000 4000))]}), inr img) /\
    with_cwd
      (<["temp_big.png.pdf" :=
           File (PdfData
                   [ImagePage {| pagesize := letter; jpeg := rgb 5000 4000;
                                 jpeg_quality := 85; jpeg_dpi := 300;
                                 x_pos := 0; y_pos := 0;
                                 new_width := 5000; new_height := 4000;
                                 preserveAspectRatio := true |}])]> ∅)
      (start (Folder {["big.png" := File (ImageData (rgb 5000 4000))]})) =
    with_cwd (<["temp_big.png.pdf" := File (PdfData [ImagePage d])]>
                (cwd (start (Folder {["big.png" := File (ImageData (rgb 5000 4000))]}))))
      (start (Folder {["big.png" := File (ImageData (rgb 5000 4000))]})) /\
    pagesize d = letter /\
    x_pos d = 0%float /\ y_pos d = 0%float /\
    (new_width d, new_height d) = size img /\
    size (jpeg d) = size img /\
    jpeg_dpi d = 300.
Proof.
  apply (original_size_at_origin (InFolder "big.png") "temp_big.png.pdf" letter
           true 85 300
           (start (Folder {["big.png" := File (ImageData (rgb 5000 4000))]}))).
  vm_compute. reflexivity.
Defined.

(** An image with a side of more than 65500 pixels is not encoded: nothing
    is written. *)
Example oversized_image_is_refused :
  let st := start (Folder {["wide.png" := File (ImageData (rgb 65501 1))]}) in
  convert_image_to_pdf (InFolder "wide.png") "temp_wide.png.pdf" letter false true
    85 300 st = (st, inl OSError).
Proof. vm_compute. reflexivity. Qed.

(** * The script as a program *)

(** C9. Run with no input directory, the script creates it, tells the user
    to fill it and to run the script again, and stops: nothing is merged and
    the working directory is left as it was. *)
Theorem main_creates_missing_directory st :
  input_folder st = Absent ->
  exists st',
    main st = (st', inr tt) /\
    input_folder st' = Folder ∅ /\
    stdout st' = stdout st ++ [Created_input_directory; Please_add_files] /\
    cwd st' = cwd st /\
    merger st' = merger st /\
    temp_files st' = temp_files st.
Proof.
  intros Hin. unfold main, os_path_exists, os_makedirs, print. unfold_monad.
  rewrite Hin. simpl. rewrite Hin. eexists. split; [reflexivity|]. simpl.
  rewrite <- app_assoc. repeat split.
Qed.

Lemma main_witness :
  exists st',
    main (start Absent) = (st', inr tt) /\
    input_folder st' = Folder ∅ /\
    stdout st' = [] ++ [Created_input_directory; Please_add_files] /\
    cwd st' = ∅ /\
    merger st' = [] /\
    temp_files st' = [].
Proof. apply (main_creates_missing_directory (start Absent)). reflexivity. Defined.

(** With the directory in place the script merges it. *)
Example main_merges :
  let st := (main (start (Folder sample_folder))).1 in
  stdout st = [Successfully_created "Experience.pdf"] /\
  dom (cwd st) = {["Experience.pdf"]}.
Proof. vm_compute. split; reflexivity. Qed.

(** * Binary64 arithmetic: signs *)

Lemma iter_pos_invariant {A} (P : A -> Prop) (f : A -> A) :
  (forall x, P x -> P (f x)) -> forall n x, P x -> P (SpecFloat.iter_pos f n x).
Proof.
  intros Hf. induction n as [n IH|n IH|]; intros x Hx; simpl; auto.
Qed.

Lemma shr_1_nonneg mrs : 0 <= shr_m mrs -> 0 <= shr_m (shr_1 mrs).
Proof. destruct mrs as [[|[p|p|]|p] r s]; simpl; lia. Qed.

Lemma shr_nonneg mrs e n : 0 <= shr_m mrs -> 0 <= shr_m (shr mrs e n).1.
Proof.
  intros H. destruct n; simpl; try done.
  apply (iter_pos_invariant (fun mrs => 0 <= shr_m mrs)); [apply shr_1_nonneg|done].
Qed.

Lemma shr_record_of_loc_m m l : shr_m (shr_record_of_loc m l) = m.
Proof. by destruct l as [|[]]. Qed.

Lemma shr_fexp_nonneg m e l :
  0 <= m -> 0 <= shr_m (shr_fexp prec emax m e l).1.
Proof.
  intros H. unfold shr_fexp. apply shr_nonneg. by rewrite shr_record_of_loc_m.
Qed.

Lemma round_nearest_even_nonneg m l : 0 <= m -> 0 <= round_nearest_even m l.
Proof.
  intros H. destruct l as [|[]]; simpl; try lia. destruct (Z.even m); lia.
Qed.

(** Rounding keeps the sign it is given and yields no NaN. *)
Lemma binary_round_aux_sign s m e l :
  0 <= m -> sign_is s (binary_round_aux prec emax s m e l).
Proof.
  intros H. unfold binary_round_aux.
  pose proof (shr_fexp_nonneg m e l H) as H1.
  destruct (shr_fexp prec emax m e l) as [mrs' e']. simpl in H1.
  pose proof (shr_fexp_nonneg _ e' loc_Exact
                (round_nearest_even_nonneg _ (loc_of_shr_record mrs') H1)) as H2.
  destruct (shr_fexp prec emax _ e' loc_Exact) as [mrs'' e'']. simpl in H2.
  destruct (shr_m mrs'') as [|p|p]; simpl; [done| |lia].
  by destruct (e'' <=? emax - prec).
Qed.

Lemma binary_round_sign s m e : sign_is s (binary_round prec emax s m e).
Proof.
  unfold binary_round. destruct (shl_align _ _ _) as [mz ez].
  by apply binary_round_aux_sign.
Qed.

Lemma sign_true_nonpos x : sign_is true x -> nonpos x.
Proof. by destruct x. Qed.

(** A difference that is not positive rounds to a value that is not
    positive. *)
Lemma binary_normalize_nonpos z e :
  z <= 0 -> nonpos (binary_normalize prec emax z e false).
Proof.
  intros H. destruct z as [|p|p]; simpl; [done|lia|].
  apply sign_true_nonpos, binary_round_sign.
Qed.

(** The integer an [int] becomes is never negative after [of_uint63]. *)
Lemma of_uint63_sign n :
  Prim2SF (of_uint63 n) = S754_zero false \/
  sign_is false (Prim2SF (of_uint63 n)) /\ Prim2SF (of_uint63 n) <> S754_zero false.
Proof.
  rewrite of_uint63_spec.
  pose proof (Uint63.to_Z_bounded n) as [Hn _].
  destruct (Uint63.to_Z n) as [|p|p]; simpl; [by left| |lia].
  pose proof (binary_round_sign false p 0) as Hs.
  destruct (binary_round prec emax false p 0) as [s|s| |s m e]; simpl in Hs.
  - left. by subst.
  - right. by split.
  - done.
  - right. by split.
Qed.

(** * Binary64 arithmetic: mantissas and exponents *)

Lemma digits2_pos_size p : digits2_pos p = Pos.size p.
Proof. induction p; simpl; congruence. Qed.

Lemma digits2_pos_gt p : Z.pos p < 2 ^ Z.pos (digits2_pos p).
Proof.
  rewrite digits2_pos_size. pose proof (Pos.size_gt p) as H.
  apply Pos2Z.pos_lt_pos in H. by rewrite Pos2Z.inj_pow in H.
Qed.

Lemma digits2_pos_le p : 2 ^ (Z.pos (digits2_pos p) - 1) <= Z.pos p.
Proof.
  rewrite digits2_pos_size. pose proof (Pos.size_le p) as H.
  apply Pos2Z.pos_le_pos in H. rewrite Pos2Z.inj_pow in H.
  replace (Z.pos (Pos.size p)) with (Z.succ (Z.pos (Pos.size p) - 1)) in H by lia.
  rewrite Z.pow_succ_r in H by lia. lia.
Qed.

(** What [valid_binary] says of a finite binary64 value: at most 53
    digits, an exponent in range, and 53 digits exactly unless the exponent
    is the smallest. *)
Lemma valid_finite s m e :
  valid_binary (S754_finite s m e) = true ->
  Z.pos (digits2_pos m) <= 53 /\ -1074 <= e <= 971 /\
  (Z.pos (digits2_pos m) = 53 \/ e = -1074).
Proof.
  unfold SpecFloat.valid_binary, bounded, canonical_mantissa, fexp, SpecFloat.emin.
  unfold prec, emax. intros [H1 H2]%andb_true_iff.
  apply Z.eqb_eq in H1. apply Z.leb_le in H2. lia.
Qed.

Lemma valid_mantissa_lt s m e :
  valid_binary (S754_finite s m e) = true -> Z.pos m < 2 ^ 53.
Proof.
  intros (Hd & _)%valid_finite. pose proof (digits2_pos_gt m) as Hm.
  eapply Z.lt_le_trans; [exact Hm|]. apply Z.pow_le_mono_r; lia.
Qed.

Lemma Pos_iter_xO m d : Z.pos (Pos.iter xO m d) = Z.pos m * 2 ^ Z.pos d.
Proof.
  induction d as [|d IH] using Pos.peano_ind.
  - simpl. lia.
  - rewrite Pos.iter_succ, Pos2Z.inj_xO, IH, Pos2Z.inj_succ, Z.pow_succ_r by lia.
    lia.
Qed.

Lemma shl_align_value m e e' :
  e' <= e -> Z.pos (shl_align m e e').1 = Z.pos m * 2 ^ (e - e').
Proof.
  intros H. unfold shl_align. destruct (e' - e) as [|d|d] eqn:E; simpl.
  - replace (e - e') with 0 by lia. simpl. lia.
  - lia.
  - rewrite Pos_iter_xO. f_equal. f_equal. lia.
Qed.

(** * Binary64 arithmetic: order *)

(** Two positive finite values compare as their mantissas do once both are
    written with the smaller exponent. *)
Lemma SFcompare_finite_pos m1 e1 m2 e2 :
  valid_binary (S754_finite false m1 e1) = true ->
  valid_binary (S754_finite false m2 e2) = true ->
  SFcompare (S754_finite false m1 e1) (S754_finite false m2 e2) =
  Some (Z.pos m1 * 2 ^ (e1 - Z.min e1 e2) ?= Z.pos m2 * 2 ^ (e2 - Z.min e1 e2)).
Proof.
  intros H1 H2. unfold SFcompare. f_equal.
  pose proof (valid_mantissa_lt _ _ _ H1) as Hm1.
  pose proof (valid_mantissa_lt _ _ _ H2) as Hm2.
  apply valid_finite in H1 as (_ & He1 & Hd1).
  apply valid_finite in H2 as (_ & He2 & Hd2).
  pose proof (digits2_pos_le m1) as Hl1. pose proof (digits2_pos_le m2) as Hl2.
  destruct (Z.compare_spec e1 e2) as [->|He|He].
  - rewrite Z.min_id, Z.sub_diag, Z.pow_0_r, !Z.mul_1_r. reflexivity.
  - rewrite Z.min_l, Z.sub_diag, Z.pow_0_r, Z.mul_1_r by lia.
    symmetry. apply Z.compare_lt_iff.
    destruct Hd2 as [Hd2|Hd2]; [|lia]. rewrite Hd2 in Hl2.
    assert (HX : 2 ^ 1 <= 2 ^ (e2 - e1)) by (apply Z.pow_le_mono_r; lia).
    change (2 ^ 1) with 2 in HX. change (2 ^ (53 - 1)) with 4503599627370496 in Hl2.
    change (2 ^ 53) with 9007199254740992 in Hm1.
    generalize dependent (2 ^ (e2 - e1)). intros X HX.
    generalize dependent (Z.pos m1). generalize dependent (Z.pos m2). intros. nia.
  - rewrite Z.min_r, Z.sub_diag, Z.pow_0_r, Z.mul_1_r by lia.
    symmetry. apply Z.compare_gt_iff.
    destruct Hd1 as [Hd1|Hd1]; [|lia]. rewrite Hd1 in Hl1.
    assert (HX : 2 ^ 1 <= 2 ^ (e1 - e2)) by (apply Z.pow_le_mono_r; lia).
    change (2 ^ 1) with 2 in HX. change (2 ^ (53 - 1)) with 4503599627370496 in Hl1.
    change (2 ^ 53) with 9007199254740992 in Hm2.
    generalize dependent (2 ^ (e1 - e2)). intros X HX.
    generalize dependent (Z.pos m1). generalize dependent (Z.pos m2). intros. nia.
Qed.

Lemma SFleb_finite_pos m1 e1 m2 e2 :
  valid_binary (S754_finite false m1 e1) = true ->
  valid_binary (S754_finite false m2 e2) = true ->
  SFleb (S754_finite false m1 e1) (S754_finite false m2 e2) = true ->
  Z.pos m1 * 2 ^ (e1 - Z.min e1 e2) <= Z.pos m2 * 2 ^ (e2 - Z.min e1 e2).
Proof.
  intros H1 H2. unfold SFleb. rewrite (SFcompare_finite_pos _ _ _ _ H1 H2).
  destruct (Z.compare_spec (Z.pos m1 * 2 ^ (e1 - Z.min e1 e2))
              (Z.pos m2 * 2 ^ (e2 - Z.min e1 e2))); [lia|lia|discriminate].
Qed.

Lemma SFltb_finite_pos m1 e1 m2 e2 :
  valid_binary (S754_finite false m1 e1) = true ->
  valid_binary (S754_finite false m2 e2) = true ->
  SFltb (S754_finite false m1 e1) (S754_finite false m2 e2) = true ->
  Z.pos m1 * 2 ^ (e1 - Z.min e1 e2) < Z.pos m2 * 2 ^ (e2 - Z.min e1 e2).
Proof.
  intros H1 H2. unfold SFltb. rewrite (SFcompare_finite_pos _ _ _ _ H1 H2).
  destruct (Z.compare_spec (Z.pos m1 * 2 ^ (e1 - Z.min e1 e2))
              (Z.pos m2 * 2 ^ (e2 - Z.min e1 e2))); [discriminate|lia|discriminate].
Qed.

(** Subtracting a positive number from one that is not larger leaves
    nothing positive. *)
Lemma SFsub_nonpos x m2 e2 :
  valid_binary x = true ->
  valid_binary (S754_finite false m2 e2) = true ->
  SFleb x (S754_finite false m2 e2) = true ->
  nonpos (SF64sub x (S754_finite false m2 e2)).
Proof.
  intros Hx H2 Hle. destruct x as [s|s| |s m e].
  - reflexivity.
  - destruct s; [reflexivity|discriminate Hle].
  - discriminate Hle.
  - unfold SF64sub, SFsub. apply binary_normalize_nonpos.
    rewrite !shl_align_value by lia.
    destruct s; unfold cond_Zopp.
    + assert (0 < Z.pos m * 2 ^ (e - Z.min e e2)) by (apply Z.mul_pos_pos; [lia|apply Z.pow_pos_nonneg; lia]).
      assert (0 < Z.pos m2 * 2 ^ (e2 - Z.min e e2)) by (apply Z.mul_pos_pos; [lia|apply Z.pow_pos_nonneg; lia]).
      lia.
    + pose proof (SFleb_finite_pos _ _ _ _ Hx H2 Hle). lia.
Qed.

(** * The page less the margins *)

(** [float(2 * margin)] is the binary64 value 40. *)
Lemma margins_value :
  Prim2SF (float_of_int (2 * margin)) = S754_finite false 5629499534213120 (-47).
Proof. vm_compute. reflexivity. Qed.

Lemma forty_value : Prim2SF 40%float = S754_finite false 5629499534213120 (-47).
Proof. vm_compute. reflexivity. Qed.

Lemma zero_value : Prim2SF 0%float = S754_zero false.
Proof. vm_compute. reflexivity. Qed.

(** A page dimension of at most 40 leaves nothing between the margins. *)
Lemma available_nonpos page_dimension :
  (page_dimension <=? 40)%float = true ->
  nonpos (Prim2SF (available page_dimension)).
Proof.
  unfold available. rewrite FloatAxioms.leb_spec, sub_spec, margins_value.
  rewrite forty_value. intros Hle.
  apply SFsub_nonpos; [apply Prim2SF_valid| |exact Hle].
  rewrite <- forty_value. apply Prim2SF_valid.
Qed.

Lemma nonpos_leb_zero x : nonpos (Prim2SF x) -> (x <=? 0)%float = true.
Proof.
  rewrite FloatAxioms.leb_spec, zero_value.
  destruct (Prim2SF x) as [s|s| |s m e]; [reflexivity| | |].
  - intros H. compute in H. by subst.
  - intros [].
  - intros H. compute in H. by subst.
Qed.

(** * Binary64 arithmetic: signs of quotients and products *)

Lemma nonpos_nan_or_nonpos x : nonpos x -> nan_or_nonpos x.
Proof. by destruct x. Qed.

Lemma SFdiv_core_nonneg ma ea mw ew mz ez lz :
  SFdiv_core_binary prec emax (Z.pos ma) ea (Z.pos mw) ew = (mz, ez, lz) ->
  0 <= mz.
Proof.
  unfold SFdiv_core_binary.
  destruct (Z.div_eucl _ _) as [q r] eqn:Ed. intros [= <- _ _].
  match type of Ed with Z.div_eucl ?a ?b = _ =>
    pose proof (Z_div_mod a b ltac:(lia)) as Hdiv; rewrite Ed in Hdiv;
    assert (0 <= a) end.
  { destruct (ea - ew - _) as [|p|p]; try lia. rewrite Z.shiftl_mul_pow2 by lia.
    apply Z.mul_nonneg_nonneg; [lia|apply Z.pow_nonneg; lia]. }
  destruct Hdiv as [Ha Hr]. nia.
Qed.

Lemma SFdiv_finite_sign sa ma ea sw mw ew :
  sign_is (xorb sa sw)
    (SF64div (S754_finite sa ma ea) (S754_finite sw mw ew)).
Proof.
  unfold SF64div, SFdiv.
  destruct (SFdiv_core_binary prec emax (Z.pos ma) ea (Z.pos mw) ew)
    as [[mz ez] lz] eqn:E.
  apply binary_round_aux_sign. by apply SFdiv_core_nonneg in E.
Qed.

Lemma SFmul_finite_sign sa ma ea sw mw ew :
  sign_is (xorb sa sw)
    (SF64mul (S754_finite sa ma ea) (S754_finite sw mw ew)).
Proof. unfold SF64mul, SFmul. apply binary_round_aux_sign. lia. Qed.

Lemma SFdiv_nonpos a w :
  nonpos a -> positive_sf w -> nan_or_nonpos (SF64div a w).
Proof.
  destruct a as [sa|sa| |sa ma ea], w as [sw|sw| |sw mw ew]; try done.
  all: try (simpl; intros; subst; done).
  simpl nonpos. simpl positive_sf. intros -> ->.
  pose proof (SFdiv_finite_sign true ma ea false mw ew) as Hs.
  destruct (SF64div _ _); simpl in *; done.
Qed.

(** With a divisor that is a number, the quotient of something not positive
    is a NaN only when the divisor is infinite. *)
Lemma SFdiv_nan a w :
  nonpos a -> positive_sf w -> SF64div a w = S754_nan -> w = S754_infinity false.
Proof.
  destruct a as [sa|sa| |sa ma ea], w as [sw|sw| |sw mw ew]; try done.
  all: try (simpl; intros; subst; done).
  intros _ _ H. pose proof (SFdiv_finite_sign sa ma ea sw mw ew) as Hs.
  by rewrite H in Hs.
Qed.

Lemma SFmul_nonpos w s :
  positive_sf w -> nan_or_nonpos s -> nan_or_nonpos (SF64mul w s).
Proof.
  destruct w as [sw|sw| |sw mw ew], s as [ss|ss| |ss ms es]; try done.
  all: try (simpl; intros; subst; done).
  simpl nan_or_nonpos at 1. simpl positive_sf. intros -> ->.
  pose proof (SFmul_finite_sign false mw ew true ms es) as Hs.
  destruct (SF64mul _ _); simpl in *; done.
Qed.

(** An infinite factor leaves nothing [int] accepts. *)
Lemma SFmul_infinity s :
  match SF64mul (S754_infinity false) s with
  | S754_nan | S754_infinity _ => True
  | _ => False
  end.
Proof. by destruct s. Qed.

Lemma SFltb_nonpos a b : SFltb a b = true -> nan_or_nonpos b -> nonpos a.
Proof.
  destruct a as [sa|sa| |sa ma ea], b as [sb|sb| |sb mb eb]; try done.
  all: simpl nan_or_nonpos; simpl nonpos; intros H Hb; subst;
       destruct sa; try reflexivity; try discriminate H.
  all: destruct sb; discriminate H.
Qed.

Lemma SFltb_false_nonpos a b :
  SFltb b a = false -> nonpos b -> nan_or_nonpos a.
Proof.
  destruct a as [sa|sa| |sa ma ea], b as [sb|sb| |sb mb eb]; try done.
  all: simpl nan_or_nonpos; simpl nonpos; intros H Hb; subst;
       destruct sa; try reflexivity; try discriminate H.
  all: destruct sb; discriminate H.
Qed.

Lemma SFtrunc_nonpos m e : SFtrunc true m e <= 0.
Proof.
  unfold SFtrunc, cond_Zopp. destruct (Z.leb_spec 0 e).
  - assert (0 <= Z.pos m * 2 ^ e) by (apply Z.mul_nonneg_nonneg; [lia|apply Z.pow_nonneg; lia]).
    lia.
  - assert (0 <= Z.pos m / 2 ^ (- e)) by (apply Z.div_pos; [lia|apply Z.pow_pos_nonneg; lia]).
    lia.
Qed.

Lemma int_of_float_nonpos x n :
  nan_or_nonpos (Prim2SF x) -> int_of_float x = inr n -> n <= 0.
Proof.
  unfold int_of_float. destruct (Prim2SF x) as [s|s| |s m e]; simpl; try done.
  - intros _ [= <-]. lia.
  - intros -> [= <-]. apply SFtrunc_nonpos.
Qed.

(** * Pages too small for the margins *)

Lemma float_of_int_positive n :
  0 < n ->
  Prim2SF (float_of_int n) = S754_zero false \/
  positive_sf (Prim2SF (float_of_int n)).
Proof.
  intros Hn. unfold float_of_int.
  destruct (Z.ltb_spec n 0) as [?|_]; [lia|].
  destruct (of_uint63_sign (Uint63.of_Z n)) as [H|[Hs Hz]]; [by left|right].
  destruct (Prim2SF _) as [s|s| |s m e]; simpl in *; try done.
  by subst.
Qed.

Lemma truediv_inv x n r :
  0 < n ->
  truediv x (float_of_int n) = inr r ->
  positive_sf (Prim2SF (float_of_int n)) /\
  Prim2SF r = SF64div (Prim2SF x) (Prim2SF (float_of_int n)).
Proof.
  intros Hn. unfold truediv. rewrite FloatAxioms.eqb_spec, zero_value.
  destruct (float_of_int_positive n Hn) as [Hz|Hp].
  - rewrite Hz. discriminate.
  - destruct (SFeqb _ _); [discriminate|]. intros [= <-].
    split; [done|apply div_spec].
Qed.

Lemma int_of_float_infinite_factor x s n :
  Prim2SF x = S754_infinity false ->
  int_of_float (x * s) = inr n -> False.
Proof.
  intros Hx. unfold int_of_float. rewrite mul_spec, Hx.
  pose proof (SFmul_infinity (Prim2SF s)) as H.
  by destruct (SF64mul _ _).
Qed.

Lemma resize_nonpos img w h :
  w <= 0 \/ h <= 0 -> exists e, resize img (w, h) = inl e.
Proof.
  intros H. unfold resize.
  destruct (_ || _ || _ || _); [by eexists|].
  destruct ((w <? 1) || (h <? 1)) eqn:E; [by eexists|].
  apply orb_false_iff in E as [?%Z.ltb_ge ?%Z.ltb_ge]. lia.
Qed.

Section SmallPage.

Variables (img : image) (page_width page_height : float).
Hypothesis width_positive : 0 < width img.
Hypothesis height_positive : 0 < height img.

(** The common factor is a NaN or is not positive as soon as one page
    dimension is at most 40, provided both sizes could be computed. *)
Lemma resize_ratio_nonpos width_ratio height_ratio nw nh :
  (page_width <=? 40)%float = true \/ (page_height <=? 40)%float = true ->
  truediv (available page_width) (float_of_int (width img)) = inr width_ratio ->
  truediv (available page_height) (float_of_int (height img)) = inr height_ratio ->
  int_of_float (float_of_int (width img) * py_min width_ratio height_ratio) = inr nw ->
  int_of_float (float_of_int (height img) * py_min width_ratio height_ratio) = inr nh ->
  nan_or_nonpos (Prim2SF (py_min width_ratio height_ratio)).
Proof.
  intros Hsmall Hw Hh Hnw Hnh.
  apply truediv_inv in Hw as [Hpw Hw]; [|done].
  apply truediv_inv in Hh as [Hph Hh]; [|done].
  unfold py_min in *. rewrite FloatAxioms.ltb_spec in *.
  destruct Hsmall as [Hs|Hs]; apply available_nonpos in Hs.
  - pose proof (SFdiv_nonpos _ _ Hs Hpw) as Hr. rewrite <- Hw in Hr.
    destruct (SFltb (Prim2SF height_ratio) (Prim2SF width_ratio)) eqn:E; [|done].
    apply nonpos_nan_or_nonpos. by eapply SFltb_nonpos.
  - pose proof (SFdiv_nonpos _ _ Hs Hph) as Hr. rewrite <- Hh in Hr.
    destruct (SFltb (Prim2SF height_ratio) (Prim2SF width_ratio)) eqn:E; [done|].
    destruct (Prim2SF height_ratio) as [s|s| |s m e] eqn:Er.
    + by eapply SFltb_false_nonpos.
    + simpl in Hr. subst s. by eapply SFltb_false_nonpos.
    + symmetry in Hh. apply SFdiv_nan in Hh; [|done..].
      by destruct (int_of_float_infinite_factor _ _ _ Hh Hnh).
    + simpl in Hr. subst s. by eapply SFltb_false_nonpos.
Qed.

Lemma new_size_nonpos maintain nw nh :
  new_size img (page_width, page_height) maintain = inr (nw, nh) ->
  ((page_width <=? 40)%float = true -> nw <= 0) /\
  ((page_height <=? 40)%float = true -> nh <= 0) /\
  (maintain = true ->
   (page_width <=? 40)%float = true \/ (page_height <=? 40)%float = true ->
   nw <= 0 /\ nh <= 0).
Proof.
  unfold new_size. unfold_monad.
  destruct (truediv (available page_width) _) as [e|width_ratio] eqn:Hw; [done|].
  destruct (truediv (available page_height) _) as [e|height_ratio] eqn:Hh; [done|].
  destruct maintain.
  - destruct (int_of_float (float_of_int (width img) * _)) as [e|nw'] eqn:Hnw; [done|].
    destruct (int_of_float (float_of_int (height img) * _)) as [e|nh'] eqn:Hnh; [done|].
    intros [= <- <-].
    assert (Hboth : (page_width <=? 40)%float = true \/ (page_height <=? 40)%float = true ->
                    nw' <= 0 /\ nh' <= 0).
    { intros Hsmall.
      pose proof (resize_ratio_nonpos _ _ _ _ Hsmall Hw Hh Hnw Hnh) as Hr.
      apply truediv_inv in Hw as [Hpw _]; [|done].
      apply truediv_inv in Hh as [Hph _]; [|done].
      split; (eapply int_of_float_nonpos; [|eassumption]); rewrite mul_spec;
        by apply SFmul_nonpos. }
    split; [intros; apply Hboth; auto|]. split; [intros; apply Hboth; auto|].
    intros _. exact Hboth.
  - destruct (int_of_float (available page_width)) as [e|nw'] eqn:Hnw; [done|].
    destruct (int_of_float (available page_height)) as [e|nh'] eqn:Hnh; [done|].
    intros [= <- <-].
    split; [|split; [|done]].
    + intros Hs%available_nonpos%nonpos_nan_or_nonpos. by eapply int_of_float_nonpos.
    + intros Hs%available_nonpos%nonpos_nan_or_nonpos. by eapply int_of_float_nonpos.
Qed.

End SmallPage.

(** C10. With [fit_to_page] on, a page whose width or height is at most
    40, twice the margin, leaves no room: the available dimension is zero or
    negative, the size computed along it is not positive (both sizes when
    the aspect ratio is kept), and the conversion raises instead of drawing
    a page.  So the conversion can only succeed when both page dimensions
    exceed 40. *)
Theorem fit_needs_room_between_margins img page_width page_height maintain :
  0 < width img -> 0 < height img ->
  (page_width <=? 40)%float = true \/ (page_height <=? 40)%float = true ->
  ((page_width <=? 40)%float = true -> (available page_width <=? 0)%float = true) /\
  ((page_height <=? 40)%float = true -> (available page_height <=? 0)%float = true) /\
  (forall nw nh,
     new_size img (page_width, page_height) maintain = inr (nw, nh) ->
     ((page_width <=? 40)%float = true -> nw <= 0) /\
     ((page_height <=? 40)%float = true -> nh <= 0) /\
     (maintain = true -> nw <= 0 /\ nh <= 0) /\
     exists e, resize img (nw, nh) = inl e) /\
  (exists e, placement img (page_width, page_height) true maintain = inl e) /\
  (forall quality dpi,
     exists e, draw img (page_width, page_height) true maintain quality dpi = inl e).
Proof.
  intros Hw Hh Hsmall.
  assert (Hsize : forall img', width img' = width img -> height img' = height img ->
            forall nw nh,
            new_size img' (page_width, page_height) maintain = inr (nw, nh) ->
            ((page_width <=? 40)%float = true -> nw <= 0) /\
            ((page_height <=? 40)%float = true -> nh <= 0) /\
            (maintain = true -> nw <= 0 /\ nh <= 0) /\
            exists e, resize img' (nw, nh) = inl e).
  { intros img' Ew Eh nw nh Hn.
    destruct (new_size_nonpos img' page_width page_height ltac:(lia) ltac:(lia)
                maintain nw nh Hn) as (H1 & H2 & H3).
    split; [done|]. split; [done|]. split; [auto|].
    apply resize_nonpos. destruct Hsmall; auto. }
  assert (Hplace : forall img', width img' = width img -> height img' = height img ->
            exists e, placement img' (page_width, page_height) true maintain = inl e).
  { intros img' Ew Eh. unfold placement. unfold_monad.
    destruct (new_size img' _ maintain) as [e|[nw nh]] eqn:Hn; [by eexists|].
    destruct (Hsize img' Ew Eh nw nh Hn) as (_ & _ & _ & e & ->). by eexists. }
  split; [intros; by apply nonpos_leb_zero, available_nonpos|].
  split; [intros; by apply nonpos_leb_zero, available_nonpos|].
  split; [by apply Hsize|]. split; [by apply Hplace|].
  intros quality dpi. unfold draw. unfold_monad.
  destruct (String.eqb (mode img) "RGB").
  - destruct (Hplace img eq_refl eq_refl) as [e ->]. by eexists.
  - destruct (Hplace (convert img "RGB") eq_refl eq_refl) as [e ->]. by eexists.
Qed.

Lemma fit_needs_room_witness :
  ((30 <=? 40)%float = true -> (available 30 <=? 0)%float = true) /\
  ((792 <=? 40)%float = true -> (available 792 <=? 0)%float = true) /\
  (forall nw nh,
     new_size (rgb 100 100) (30%float, 792%float) true = inr (nw, nh) ->
     ((30 <=? 40)%float = true -> nw <= 0) /\
     ((792 <=? 40)%float = true -> nh <= 0) /\
     (true = true -> nw <= 0 /\ nh <= 0) /\
     exists e, resize (rgb 100 100) (nw, nh) = inl e) /\
  (exists e, placement (rgb 100 100) (30%float, 792%float) true true = inl e) /\
  (forall quality dpi,
     exists e, draw (rgb 100 100) (30%float, 792%float) true true quality dpi = inl e).
Proof.
  apply (fit_needs_room_between_margins (rgb 100 100) 30 792 true).
  - reflexivity.
  - reflexivity.
  - left. vm_compute. reflexivity.
Defined.

(** A page 30 wide, with and without the aspect ratio kept: the sizes are
    computed, and [resize] refuses them. *)
Example narrow_page :
  new_size (rgb 100 100) (30%float, 792%float) true = inr (-10, -10) /\
  new_size (rgb 100 100) (30%float, 792%float) false = inr (-10, 752) /\
  placement (rgb 100 100) (30%float, 792%float) true true = inl ValueError /\
  placement (rgb 100 100) (30%float, 792%float) true false = inl ValueError.
Proof. vm_compute. repeat split. Qed.

(** * Binary64 arithmetic: values *)

Lemma pow2_pos e : (0 < pow2 e)%Q.
Proof. apply Qpower_0_lt. reflexivity. Qed.

Lemma pow2_add a b : (pow2 (a + b) == pow2 a * pow2 b)%Q.
Proof. apply Qpower_plus. discriminate. Qed.

Lemma pow2_inject k : 0 <= k -> (pow2 k == inject_Z (2 ^ k))%Q.
Proof. intros H. unfold pow2. by rewrite Zpower_Qpower. Qed.

Lemma pow2_0 : (pow2 0 == 1)%Q.
Proof. reflexivity. Qed.

(** A mantissa written with a smaller exponent. *)
Lemma scale_mantissa m e ez :
  ez <= e -> (inject_Z m * pow2 e == inject_Z (m * 2 ^ (e - ez)) * pow2 ez)%Q.
Proof.
  intros H. replace e with ((e - ez) + ez) at 1 by lia.
  rewrite pow2_add, pow2_inject, inject_Z_mult by lia. ring.
Qed.

Lemma scaled_le a b ez : a <= b -> (inject_Z a * pow2 ez <= inject_Z b * pow2 ez)%Q.
Proof.
  intros H. apply Qmult_le_compat_r; [|apply Qlt_le_weak, pow2_pos].
  by rewrite <- Zle_Qle.
Qed.

Lemma scaled_lt a b ez : a < b -> (inject_Z a * pow2 ez < inject_Z b * pow2 ez)%Q.
Proof.
  intros H. apply Qmult_lt_compat_r; [apply pow2_pos|]. by rewrite <- Zlt_Qlt.
Qed.

(** [int] drops less than one unit, toward zero. *)
Lemma SFtrunc_pos_bounds m e :
  (inject_Z (SFtrunc false m e) <= SF2Q (S754_finite false m e) /\
   SF2Q (S754_finite false m e) < inject_Z (SFtrunc false m e) + 1)%Q.
Proof.
  unfold SFtrunc, SF2Q, cond_Zopp. destruct (Z.leb_spec 0 e) as [He|He].
  - rewrite (scale_mantissa (Z.pos m) e 0) by lia.
    rewrite Z.sub_0_r, pow2_0, Qmult_1_r. split; [apply Qle_refl|].
    rewrite <- (Qplus_0_r (inject_Z _)) at 1. apply Qplus_lt_r. reflexivity.
  - assert (Hk : 0 < 2 ^ (- e)) by (apply Z.pow_pos_nonneg; lia).
    pose proof (Z_div_mod_eq_full (Z.pos m) (2 ^ (- e))) as Hdiv.
    pose proof (Z.mod_pos_bound (Z.pos m) (2 ^ (- e)) Hk) as Hmod.
    set (n := Z.pos m / 2 ^ (- e)) in *.
    assert (En : (inject_Z n == inject_Z (n * 2 ^ (0 - e)) * pow2 e)%Q).
    { rewrite <- (scale_mantissa n 0 e) by lia. by rewrite pow2_0, Qmult_1_r. }
    assert (En1 : (inject_Z n + 1 == inject_Z ((n + 1) * 2 ^ (0 - e)) * pow2 e)%Q).
    { rewrite <- (scale_mantissa (n + 1) 0 e) by lia.
      rewrite pow2_0, Qmult_1_r, inject_Z_plus. reflexivity. }
    rewrite En1, En. clearbody n. clear En En1.
    replace (0 - e) with (- e) by lia.
    generalize dependent (2 ^ (- e)). intros X HX Hdiv Hmod.
    split; [apply scaled_le|apply scaled_lt]; lia.
Qed.

Lemma SF2Q_opp m e :
  (SF2Q (S754_finite true m e) == - SF2Q (S754_finite false m e))%Q.
Proof.
  unfold SF2Q, cond_Zopp. change (- Z.pos m) with (- (Z.pos m)).
  rewrite inject_Z_opp. ring.
Qed.

Lemma SFtrunc_bounds s m e :
  (inject_Z (SFtrunc s m e) - 1 < SF2Q (S754_finite s m e) /\
   SF2Q (S754_finite s m e) < inject_Z (SFtrunc s m e) + 1)%Q.
Proof.
  pose proof (SFtrunc_pos_bounds m e) as [H1 H2]. destruct s.
  - rewrite SF2Q_opp.
    replace (SFtrunc true m e) with (- SFtrunc false m e) by reflexivity.
    rewrite inject_Z_opp. split; lra.
  - split; lra.
Qed.

(** What [int] returns is within one unit of the value it is given. *)
Lemma int_of_float_bounds x n :
  int_of_float x = inr n ->
  (inject_Z n - 1 < float_value x /\ float_value x < inject_Z n + 1)%Q.
Proof.
  unfold int_of_float, float_value.
  destruct (Prim2SF x) as [s|s| |s m e]; try done.
  - intros [= <-]. simpl. split; reflexivity.
  - intros [= <-]. apply SFtrunc_bounds.
Qed.

(** * The common factor *)

Lemma SFltb_irrefl x : SFltb x x = false.
Proof.
  destruct x as [s|s| |s m e]; try done.
  - by destruct s.
  - unfold SFltb, SFcompare. rewrite Z.compare_refl.
    change (Pos.compare_cont Eq m m) with (Pos.compare m m).
    rewrite Pos.compare_refl. by destruct s.
Qed.

Lemma SFltb_asym x y : SFltb x y = true -> SFltb y x = false.
Proof.
  destruct x as [s1|s1| |s1 m1 e1], y as [s2|s2| |s2 m2 e2]; try done.
  all: try (by destruct s1, s2).
  all: try (by destruct s1).
  all: try (by destruct s2).
  unfold SFltb, SFcompare.
  rewrite (Z.compare_antisym e1 e2).
  change (Pos.compare_cont Eq m2 m1) with (Pos.compare m2 m1).
  change (Pos.compare_cont Eq m1 m2) with (Pos.compare m1 m2).
  rewrite (Pos.compare_antisym m1 m2).
  destruct s1, s2; try done.
  all: destruct (e1 ?= e2); simpl; try done.
  all: by destruct (m1 ?= m2)%positive.
Qed.

(** [min] returns one of its arguments, and neither is smaller than it. *)
Lemma py_min_spec a b :
  (py_min a b = a \/ py_min a b = b) /\
  (a <? py_min a b)%float = false /\ (b <? py_min a b)%float = false.
Proof.
  unfold py_min. rewrite !FloatAxioms.ltb_spec.
  destruct (SFltb (Prim2SF b) (Prim2SF a)) eqn:E.
  - split; [by right|]. split; [by apply SFltb_asym|apply SFltb_irrefl].
  - split; [by left|]. split; [apply SFltb_irrefl|done].
Qed.

Lemma resize_size img w h img' : resize img (w, h) = inr img' -> size img' = (w, h).
Proof.
  unfold resize. destruct (_ || _ || _ || _); [done|].
  destruct (_ || _); [done|]. by intros [= <-].
Qed.

(** C5. With the aspect ratio kept, both sizes of the image are multiplied
    by one factor, the smaller of available width over image width and
    available height over image height, and each product is truncated to an
    integer: each block dimension is within one unit of the scaled image
    dimension, as double precision computes it. *)
Theorem aspect_ratio_is_kept img page_width page_height img' position nw nh :
  placement img (page_width, page_height) true true = inr (img', position, (nw, nh)) ->
  exists width_ratio height_ratio,
    truediv (available page_width) (float_of_int (width img)) = inr width_ratio /\
    truediv (available page_height) (float_of_int (height img)) = inr height_ratio /\
    let resize_ratio := py_min width_ratio height_ratio in
    (resize_ratio = width_ratio \/ resize_ratio = height_ratio) /\
    (width_ratio <? resize_ratio)%float = false /\
    (height_ratio <? resize_ratio)%float = false /\
    int_of_float (float_of_int (width img) * resize_ratio) = inr nw /\
    int_of_float (float_of_int (height img) * resize_ratio) = inr nh /\
    (inject_Z nw - 1 < float_value (float_of_int (width img) * resize_ratio) /\
     float_value (float_of_int (width img) * resize_ratio) < inject_Z nw + 1)%Q /\
    (inject_Z nh - 1 < float_value (float_of_int (height img) * resize_ratio) /\
     float_value (float_of_int (height img) * resize_ratio) < inject_Z nh + 1)%Q /\
    size img' = (nw, nh).
Proof.
  unfold placement, new_size. unfold_monad.
  destruct (truediv (available page_width) _) as [e|width_ratio] eqn:Hw; [done|].
  destruct (truediv (available page_height) _) as [e|height_ratio] eqn:Hh; [done|].
  destruct (int_of_float (float_of_int (width img) * _)) as [e|nw'] eqn:Hnw; [done|].
  destruct (int_of_float (float_of_int (height img) * _)) as [e|nh'] eqn:Hnh; [done|].
  destruct (resize img (nw', nh')) as [e|img''] eqn:Hr; [done|].
  intros [= <- <- <- <-].
  exists width_ratio, height_ratio.
  destruct (py_min_spec width_ratio height_ratio) as (H1 & H2 & H3).
  repeat (split; [done|]).
  split; [by apply int_of_float_bounds|].
  split; [by apply int_of_float_bounds|].
  by eapply resize_size.
Qed.

(** A 200 by 50 image on an A4 page: the factor is the width ratio. *)
Lemma aspect_ratio_witness :
  exists width_ratio height_ratio,
    truediv (available A4.1) (float_of_int 200) = inr width_ratio /\
    truediv (available A4.2) (float_of_int 50) = inr height_ratio /\
    let resize_ratio := py_min width_ratio height_ratio in
    (resize_ratio = width_ratio \/ resize_ratio = height_ratio) /\
    (width_ratio <? resize_ratio)%float = false /\
    (height_ratio <? resize_ratio)%float = false /\
    int_of_float (float_of_int 200 * resize_ratio) = inr 555 /\
    int_of_float (float_of_int 50 * resize_ratio) = inr 138 /\
    (inject_Z 555 - 1 < float_value (float_of_int 200 * resize_ratio) /\
     float_value (float_of_int 200 * resize_ratio) < inject_Z 555 + 1)%Q /\
    (inject_Z 138 - 1 < float_value (float_of_int 50 * resize_ratio) /\
     float_value (float_of_int 50 * resize_ratio) < inject_Z 138 + 1)%Q /\
    size (rgb 555 138) = (555, 138).
Proof.
  apply (aspect_ratio_is_kept (rgb 200 50) A4.1 A4.2 (rgb 555 138)
           (centred A4.1 555, centred A4.2 138) 555 138).
  vm_compute. reflexivity.
Defined.

(** * Binary64 arithmetic: rounding *)

Lemma pow2_le a b : a <= b -> (pow2 a <= pow2 b)%Q.
Proof.
  intros H.
  assert (pow2 b == inject_Z (2 ^ (b - a)) * pow2 a)%Q as ->.
  { replace b with ((b - a) + a) at 1 by lia.
    rewrite pow2_add, pow2_inject by lia. reflexivity. }
  assert (pow2 a == inject_Z 1 * pow2 a)%Q as Ha by (simpl; ring).
  rewrite Ha at 1. apply scaled_le.
  assert (0 < 2 ^ (b - a)) by (apply Z.pow_pos_nonneg; lia). lia.
Qed.

Lemma scaled_lt_inv a b ez :
  (inject_Z a * pow2 ez < inject_Z b * pow2 ez)%Q -> a < b.
Proof.
  intros H. apply Qmult_lt_r in H; [|apply pow2_pos]. by rewrite Zlt_Qlt.
Qed.

(** One step to the right halves the mantissa, rounding down. *)
Lemma shr_1_le mrs :
  0 <= shr_m mrs -> 0 <= shr_m (shr_1 mrs) /\ 2 * shr_m (shr_1 mrs) <= shr_m mrs.
Proof. destruct mrs as [[|[p|p|]|p] r s]; simpl; lia. Qed.

Lemma iter_shr_1_le p mrs :
  0 <= shr_m mrs ->
  0 <= shr_m (SpecFloat.iter_pos shr_1 p mrs) /\
  shr_m (SpecFloat.iter_pos shr_1 p mrs) * 2 ^ Z.pos p <= shr_m mrs.
Proof.
  revert mrs. induction p as [p IH|p IH|]; intros mrs Hm; simpl SpecFloat.iter_pos.
  - destruct (shr_1_le mrs Hm) as [H0 H1].
    destruct (IH _ H0) as [H2 H3]. destruct (IH _ H2) as [H4 H5].
    split; [done|].
    replace (Z.pos p~1) with (Z.pos p + Z.pos p + 1) by lia.
    rewrite !Z.pow_add_r by lia. change (2 ^ 1) with 2.
    assert (0 < 2 ^ Z.pos p) by (apply Z.pow_pos_nonneg; lia).
    generalize dependent (2 ^ Z.pos p). intros X. intros. nia.
  - destruct (IH _ Hm) as [H2 H3]. destruct (IH _ H2) as [H4 H5].
    split; [done|].
    replace (Z.pos p~0) with (Z.pos p + Z.pos p) by lia.
    rewrite !Z.pow_add_r by lia.
    assert (0 < 2 ^ Z.pos p) by (apply Z.pow_pos_nonneg; lia).
    generalize dependent (2 ^ Z.pos p). intros X. intros. nia.
  - destruct (shr_1_le mrs Hm) as [H0 H1]. split; [done|].
    change (2 ^ 1) with 2. lia.
Qed.

(** Shifting to the exponent the format asks for: the exponent does not
    decrease, and the mantissa is rounded down. *)
Lemma shr_fexp_le m e l mrs e' :
  0 <= m ->
  shr_fexp prec emax m e l = (mrs, e') ->
  e' = Z.max e (fexp prec emax (Zdigits2 m + e)) /\
  0 <= shr_m mrs /\ shr_m mrs * 2 ^ (e' - e) <= m.
Proof.
  intros Hm. unfold shr_fexp, shr.
  destruct (fexp prec emax (Zdigits2 m + e) - e) as [|p|p] eqn:E.
  - intros [= <- <-]. rewrite shr_record_of_loc_m.
    split; [lia|]. split; [done|]. rewrite Z.sub_diag. simpl. lia.
  - intros [= <- <-].
    destruct (iter_shr_1_le p (shr_record_of_loc m l)) as [H1 H2];
      [by rewrite shr_record_of_loc_m|].
    rewrite shr_record_of_loc_m in H2.
    split; [lia|]. split; [done|].
    by replace (e + Z.pos p - e) with (Z.pos p) by lia.
  - intros [= <- <-]. rewrite shr_record_of_loc_m.
    split; [lia|]. split; [done|]. rewrite Z.sub_diag. simpl. lia.
Qed.

Lemma round_nearest_even_le m l :
  m <= round_nearest_even m l <= m + 1.
Proof. destruct l as [|[]]; simpl; try lia. destruct (Z.even m); lia. Qed.

(** The stages of [binary_round_aux] on a mantissa that is not negative. *)
Lemma binary_round_aux_stages s m e l :
  0 <= m ->
  exists m' e' m1 m'' e'',
    e' = Z.max e (fexp prec emax (Zdigits2 m + e)) /\
    0 <= m' /\ m' * 2 ^ (e' - e) <= m /\
    m' <= m1 <= m' + 1 /\
    e'' = Z.max e' (fexp prec emax (Zdigits2 m1 + e')) /\
    0 <= m'' /\ m'' * 2 ^ (e'' - e') <= m1 /\
    binary_round_aux prec emax s m e l =
    match m'' with
    | Z0 => S754_zero s
    | Z.pos p => if e'' <=? emax - prec then S754_finite s p e'' else S754_infinity s
    | Z.neg _ => S754_nan
    end.
Proof.
  intros Hm. unfold binary_round_aux.
  destruct (shr_fexp prec emax m e l) as [mrs' e'] eqn:E1.
  destruct (shr_fexp_le _ _ _ _ _ Hm E1) as (He' & H0 & H1).
  pose proof (round_nearest_even_le (shr_m mrs') (loc_of_shr_record mrs')) as Hr.
  destruct (shr_fexp prec emax (round_nearest_even _ _) e' loc_Exact)
    as [mrs'' e''] eqn:E2.
  assert (0 <= round_nearest_even (shr_m mrs') (loc_of_shr_record mrs')) as Hm1 by lia.
  destruct (shr_fexp_le _ _ _ _ _ Hm1 E2) as (He'' & H2 & H3).
  exists (shr_m mrs'), e', (round_nearest_even (shr_m mrs') (loc_of_shr_record mrs')),
    (shr_m mrs''), e''.
  repeat (split; [done|]). reflexivity.
Qed.

(** Rounding adds at most one unit in the last place of the result. *)
Lemma binary_round_aux_upper s m e l s' mr er :
  0 <= m ->
  binary_round_aux prec emax s m e l = S754_finite s' mr er ->
  (inject_Z (Z.pos mr) * pow2 er <= inject_Z m * pow2 e + pow2 er)%Q.
Proof.
  intros Hm Hr.
  destruct (binary_round_aux_stages s m e l Hm)
    as (m' & e' & m1 & m'' & e'' & He' & H0 & H1 & Hm1 & He'' & H2 & H3 & Heq).
  rewrite Hr in Heq. destruct m'' as [|p|p]; try done.
  destruct (e'' <=? emax - prec); [|done]. injection Heq as -> -> ->.
  assert (e <= e') by lia. assert (e' <= e'') by lia.
  rewrite (scale_mantissa (Z.pos p) e'' e') by done.
  eapply Qle_trans; [apply (scaled_le _ (m' + 1)); lia|].
  rewrite inject_Z_plus, Qmult_plus_distr_l, Qmult_1_l.
  apply Qplus_le_compat; [|by apply pow2_le].
  rewrite (scale_mantissa m' e' e) by done. by apply scaled_le.
Qed.

Lemma Zdigits2_le m k : 0 <= k -> 0 <= m < 2 ^ k -> Zdigits2 m <= k.
Proof.
  intros Hk [H0 Hm]. destruct m as [|p|p]; simpl; [done| |lia].
  pose proof (digits2_pos_le p) as Hp.
  assert (2 ^ (Z.pos (digits2_pos p) - 1) < 2 ^ k) as Hlt by lia.
  apply Z.pow_lt_mono_r_iff in Hlt; lia.
Qed.

Lemma Zdigits2_nonneg m : 0 <= Zdigits2 m.
Proof. by destruct m. Qed.

(** A value below 2^1023 whose exponent is in range does not round to an
    infinity. *)
Lemma binary_round_aux_no_overflow s m e l s' :
  0 <= m -> e <= 971 -> m < 2 ^ (1023 - e) ->
  binary_round_aux prec emax s m e l <> S754_infinity s'.
Proof.
  intros Hm He Hlt.
  destruct (binary_round_aux_stages s m e l Hm)
    as (m' & e' & m1 & m'' & e'' & He' & H0 & H1 & Hm1 & He'' & H2 & H3 & Heq).
  rewrite Heq. clear Heq.
  pose proof (Zdigits2_le m (1023 - e) ltac:(lia) ltac:(lia)) as Hd.
  pose proof (Zdigits2_nonneg m) as Hd0.
  unfold fexp, SpecFloat.emin, prec, emax in *.
  assert (e' <= 971) as He'le by lia.
  assert (m' < 2 ^ (1023 - e')) as Hm'.
  { replace (1023 - e) with ((1023 - e') + (e' - e)) in Hlt by lia.
    rewrite Z.pow_add_r in Hlt by lia.
    assert (0 < 2 ^ (e' - e)) by (apply Z.pow_pos_nonneg; lia).
    generalize dependent (2 ^ (e' - e)). generalize dependent (2 ^ (1023 - e')).
    intros. nia. }
  assert (m1 < 2 ^ (1024 - e')) as Hm1'.
  { replace (1024 - e') with (Z.succ (1023 - e')) by lia.
    rewrite Z.pow_succ_r by lia.
    assert (0 < 2 ^ (1023 - e')) by (apply Z.pow_pos_nonneg; lia). lia. }
  pose proof (Zdigits2_le m1 (1024 - e') ltac:(lia) ltac:(lia)) as Hd1.
  destruct m'' as [|p|p]; [done| |done].
  destruct (Z.leb_spec e'' (1024 - 53)); [done|lia].
Qed.

(** The quotient the division starts from, before rounding. *)
Lemma SFdiv_core_le ma ea mw ew mz ez lz :
  SFdiv_core_binary prec emax (Z.pos ma) ea (Z.pos mw) ew = (mz, ez, lz) ->
  0 <= mz /\
  ez <= fexp prec emax (Z.pos (digits2_pos ma) + ea - (Z.pos (digits2_pos mw) + ew)) /\
  (inject_Z mz * pow2 ez * (inject_Z (Z.pos mw) * pow2 ew) <=
   inject_Z (Z.pos ma) * pow2 ea)%Q.
Proof.
  intros E. split; [by eapply SFdiv_core_nonneg|]. revert E.
  unfold SFdiv_core_binary. simpl Zdigits2.
  set (e' := Z.min _ (ea - ew)).
  destruct (Z.div_eucl _ _) as [q r] eqn:Ed. intros [= <- <- _].
  split; [lia|].
  assert (e' <= ea - ew) as Hs by lia.
  assert (q * Z.pos mw <= Z.pos ma * 2 ^ (ea - ew - e')) as Hq.
  { match type of Ed with Z.div_eucl ?a ?b = _ =>
      pose proof (Z_div_mod a b ltac:(lia)) as Hdiv; rewrite Ed in Hdiv;
      assert (a = Z.pos ma * 2 ^ (ea - ew - e')) as Ha end.
    { destruct (ea - ew - e') as [|p|p] eqn:E; [simpl; lia| |lia].
      by rewrite Z.shiftl_mul_pow2. }
    rewrite Ha in Hdiv. destruct Hdiv as [Hdiv Hr]. nia. }
  replace (ea - ew - e') with (ea - (e' + ew)) in Hq by lia.
  apply (scaled_le _ _ (e' + ew)) in Hq.
  rewrite <- (scale_mantissa (Z.pos ma) ea (e' + ew)) in Hq by lia.
  eapply Qle_trans; [|exact Hq].
  rewrite inject_Z_mult, pow2_add. apply Qle_lteq. right. ring.
Qed.

(** ** Integers below 2^53 are converted exactly *)

Lemma shr_fexp_exact m e l :
  fexp prec emax (Zdigits2 m + e) <= e ->
  shr_fexp prec emax m e l = (shr_record_of_loc m l, e).
Proof.
  intros H. unfold shr_fexp, shr.
  destruct (fexp prec emax (Zdigits2 m + e) - e) as [|p|p] eqn:E; [done|lia|done].
Qed.

Lemma binary_round_aux_exact s p e :
  fexp prec emax (Z.pos (digits2_pos p) + e) <= e -> e <= 971 ->
  binary_round_aux prec emax s (Z.pos p) e loc_Exact = S754_finite s p e.
Proof.
  intros Hc He. unfold binary_round_aux.
  rewrite shr_fexp_exact by done. simpl shr_m. simpl loc_of_shr_record.
  simpl round_nearest_even. rewrite shr_fexp_exact by done. simpl shr_m.
  destruct (Z.leb_spec e (emax - prec)); [done|]. unfold emax, prec in *. lia.
Qed.

Lemma digits2_pos_iter p k :
  Z.pos (digits2_pos (Pos.iter xO p k)) = Z.pos (digits2_pos p) + Z.pos k.
Proof.
  induction k as [|k IH] using Pos.peano_ind.
  - simpl. lia.
  - rewrite Pos.iter_succ. simpl digits2_pos. lia.
Qed.

Lemma binary_round_exact p :
  Z.pos p < 2 ^ 53 ->
  exists m e, binary_round prec emax false p 0 = S754_finite false m e /\
    e <= 0 /\ Z.pos m = Z.pos p * 2 ^ (- e).
Proof.
  intros Hp. unfold binary_round.
  pose proof (Zdigits2_le (Z.pos p) 53 ltac:(lia) ltac:(lia)) as Hd. simpl in Hd.
  assert (fexp prec emax (Z.pos (digits2_pos p) + 0) = Z.pos (digits2_pos p) - 53) as Hf.
  { unfold fexp, SpecFloat.emin, prec, emax. lia. }
  rewrite Hf. unfold shl_align.
  destruct (Z.pos (digits2_pos p) - 53 - 0) as [|k|k] eqn:E; [|lia|].
  - exists p, 0. rewrite binary_round_aux_exact; [|rewrite Hf; lia|lia].
    split; [done|]. split; [done|]. simpl. lia.
  - exists (Pos.iter xO p k), (Z.pos (digits2_pos p) - 53).
    rewrite binary_round_aux_exact.
    + split; [done|]. split; [lia|]. rewrite Pos_iter_xO. f_equal. f_equal. lia.
    + rewrite digits2_pos_iter. unfold fexp, SpecFloat.emin, prec, emax. lia.
    + lia.
Qed.

Lemma float_of_int_exact n :
  0 < n < 2 ^ 53 ->
  exists m e, Prim2SF (float_of_int n) = S754_finite false m e /\
    (inject_Z (Z.pos m) * pow2 e == inject_Z n)%Q.
Proof.
  intros [H0 Hn]. unfold float_of_int.
  destruct (Z.ltb_spec n 0) as [?|_]; [lia|].
  rewrite of_uint63_spec, Uint63.of_Z_spec, Z.mod_small.
  - destruct n as [|p|p]; [lia| |lia]. simpl binary_normalize.
    destruct (binary_round_exact p Hn) as (m & e & Hr & He & Hm).
    exists m, e. split; [done|].
    rewrite Hm. replace (- e) with (0 - e) by lia.
    rewrite <- scale_mantissa by done. rewrite pow2_0. ring.
  - split; [lia|]. eapply Z.lt_trans; [exact Hn|]. reflexivity.
Qed.

(** ** Quotients and products of positive numbers *)

Lemma finite_value_pos m e : (0 < inject_Z (Z.pos m) * pow2 e)%Q.
Proof.
  apply Qmult_lt_0_compat; [|apply pow2_pos].
  change 0%Q with (inject_Z 0). by rewrite <- Zlt_Qlt.
Qed.

(** A value is below two to the number of its digits plus its exponent. *)
Lemma finite_value_lt m e :
  (inject_Z (Z.pos m) * pow2 e < pow2 (Z.pos (digits2_pos m) + e))%Q.
Proof.
  rewrite pow2_add, (pow2_inject (Z.pos (digits2_pos m))) by lia.
  apply scaled_lt, digits2_pos_gt.
Qed.

(** The unit in the last place of a normal number is at most 2^-52 of it. *)
Lemma ulp_le s m e :
  valid_binary (S754_finite s m e) = true ->
  (pow2 e <= inject_Z (Z.pos m) * pow2 e * pow2 (-52))%Q \/ e = -1074.
Proof.
  intros (Hd & He & [H53|Hmin])%valid_finite; [left|by right].
  pose proof (digits2_pos_le m) as Hm. rewrite H53 in Hm.
  apply (scaled_le _ _ e) in Hm.
  assert (inject_Z (2 ^ (53 - 1)) * pow2 (-52) == 1)%Q as Hc by reflexivity.
  eapply Qle_trans;
    [|apply Qmult_le_compat_r; [exact Hm|apply Qlt_le_weak, pow2_pos]].
  apply Qle_lteq. right.
  rewrite <- Qmult_assoc, (Qmult_comm (pow2 e)), Qmult_assoc, Hc. ring.
Qed.

Lemma subnormal_lt s m e :
  valid_binary (S754_finite s m e) = true -> e = -1074 ->
  (inject_Z (Z.pos m) * pow2 e < pow2 (-1021))%Q.
Proof.
  intros Hv ->. apply valid_mantissa_lt in Hv.
  apply (scaled_lt _ _ (-1074)) in Hv.
  rewrite <- pow2_inject, <- pow2_add in Hv by lia. exact Hv.
Qed.

Lemma SFdiv_upper ma ea mw ew s mq eq :
  SF64div (S754_finite false ma ea) (S754_finite false mw ew) = S754_finite s mq eq ->
  (inject_Z (Z.pos mq) * pow2 eq * (inject_Z (Z.pos mw) * pow2 ew) <=
   inject_Z (Z.pos ma) * pow2 ea + pow2 eq * (inject_Z (Z.pos mw) * pow2 ew))%Q.
Proof.
  unfold SF64div, SFdiv.
  destruct (SFdiv_core_binary prec emax (Z.pos ma) ea (Z.pos mw) ew)
    as [[mz ez] lz] eqn:E.
  apply SFdiv_core_le in E as (Hz & _ & Hq). intros Hr.
  apply binary_round_aux_upper in Hr; [|done].
  pose proof (finite_value_pos mw ew) as HW.
  set (W := (inject_Z (Z.pos mw) * pow2 ew)%Q) in *.
  apply (Qmult_le_compat_r _ _ W) in Hr; [|by apply Qlt_le_weak].
  eapply Qle_trans; [exact Hr|]. rewrite Qmult_plus_distr_l.
  apply Qplus_le_compat; [exact Hq|apply Qle_refl].
Qed.

Lemma SFdiv_no_overflow ma ea mw ew s :
  valid_binary (S754_finite false ma ea) = true ->
  (inject_Z (Z.pos ma) * pow2 ea < pow2 1023)%Q ->
  (1 <= inject_Z (Z.pos mw) * pow2 ew)%Q ->
  SF64div (S754_finite false ma ea) (S754_finite false mw ew) <> S754_infinity s.
Proof.
  intros (Hda & Hea & _)%valid_finite HA HW. unfold SF64div, SFdiv.
  destruct (SFdiv_core_binary prec emax (Z.pos ma) ea (Z.pos mw) ew)
    as [[mz ez] lz] eqn:E.
  apply SFdiv_core_le in E as (Hz & He & Hq).
  assert (1 <= Z.pos (digits2_pos mw) + ew) as Hdw.
  { destruct (Z.le_gt_cases (Z.pos (digits2_pos mw) + ew) 0) as [Hle|]; [|lia].
    apply pow2_le in Hle. rewrite pow2_0 in Hle.
    pose proof (finite_value_lt mw ew). lra. }
  assert (ez <= 970) as Hez.
  { unfold fexp, SpecFloat.emin, prec, emax in He. lia. }
  apply binary_round_aux_no_overflow; [done|lia|].
  replace (2 ^ (1023 - ez)) with (1 * 2 ^ (1023 - ez)) by lia.
  apply (scaled_lt_inv _ _ ez). rewrite <- scale_mantissa by lia.
  rewrite Qmult_1_l.
  assert (0 <= inject_Z mz * pow2 ez)%Q as Hq0.
  { apply Qmult_le_0_compat; [|apply Qlt_le_weak, pow2_pos].
    change 0%Q with (inject_Z 0). by rewrite <- Zle_Qle. }
  set (W := (inject_Z (Z.pos mw) * pow2 ew)%Q) in *.
  set (X := (inject_Z mz * pow2 ez)%Q) in *.
  assert (1 * X <= W * X)%Q as HX by (apply Qmult_le_compat_r; done).
  lra.
Qed.

Lemma SFmul_upper mw ew ms es s mp ep :
  SF64mul (S754_finite false mw ew) (S754_finite false ms es) = S754_finite s mp ep ->
  (inject_Z (Z.pos mp) * pow2 ep <=
   inject_Z (Z.pos mw) * pow2 ew * (inject_Z (Z.pos ms) * pow2 es) + pow2 ep)%Q.
Proof.
  unfold SF64mul, SFmul. intros Hr.
  apply binary_round_aux_upper in Hr; [|lia].
  eapply Qle_trans; [exact Hr|]. apply Qplus_le_compat; [|apply Qle_refl].
  rewrite Pos2Z.inj_mul, inject_Z_mult, pow2_add. apply Qle_lteq. right. ring.
Qed.

Lemma SFltb_true_value m1 e1 m2 e2 :
  valid_binary (S754_finite false m1 e1) = true ->
  valid_binary (S754_finite false m2 e2) = true ->
  SFltb (S754_finite false m1 e1) (S754_finite false m2 e2) = true ->
  (inject_Z (Z.pos m1) * pow2 e1 < inject_Z (Z.pos m2) * pow2 e2)%Q.
Proof.
  intros H1 H2 H. apply SFltb_finite_pos in H; [|done..].
  rewrite (scale_mantissa (Z.pos m1) e1 (Z.min e1 e2)) by lia.
  rewrite (scale_mantissa (Z.pos m2) e2 (Z.min e1 e2)) by lia.
  by apply scaled_lt.
Qed.

Lemma SFltb_false_value m1 e1 m2 e2 :
  valid_binary (S754_finite false m1 e1) = true ->
  valid_binary (S754_finite false m2 e2) = true ->
  SFltb (S754_finite false m1 e1) (S754_finite false m2 e2) = false ->
  (inject_Z (Z.pos m2) * pow2 e2 <= inject_Z (Z.pos m1) * pow2 e1)%Q.
Proof.
  intros H1 H2. unfold SFltb. rewrite (SFcompare_finite_pos _ _ _ _ H1 H2).
  rewrite (scale_mantissa (Z.pos m1) e1 (Z.min e1 e2)) by lia.
  rewrite (scale_mantissa (Z.pos m2) e2 (Z.min e1 e2)) by lia.
  destruct (Z.compare_spec (Z.pos m1 * 2 ^ (e1 - Z.min e1 e2))
              (Z.pos m2 * 2 ^ (e2 - Z.min e1 e2))) as [Heq|Hlt|Hgt];
    [|discriminate|]; intros _; apply scaled_le; lia.
Qed.

(** A product that [int] turns into a positive integer is a positive finite
    number, and so is the factor of a positive finite number in it. *)
Lemma positive_product w s mw ew n :
  Prim2SF w = S754_finite false mw ew ->
  int_of_float (w * s) = inr n -> 1 <= n ->
  exists ms es mp ep,
    Prim2SF s = S754_finite false ms es /\
    Prim2SF (w * s) = S754_finite false mp ep /\
    SF64mul (S754_finite false mw ew) (S754_finite false ms es) =
      S754_finite false mp ep /\
    (inject_Z n <= inject_Z (Z.pos mp) * pow2 ep)%Q.
Proof.
  intros Hw. unfold int_of_float. rewrite mul_spec, Hw.
  destruct (Prim2SF s) as [ss|ss| |ss ms es].
  - simpl. intros [= <-]. lia.
  - done.
  - done.
  - pose proof (SFmul_finite_sign false mw ew ss ms es) as Hs.
    destruct (SF64mul _ _) as [sp|sp| |sp mp ep] eqn:E; try done.
    + intros [= <-]. lia.
    + simpl in Hs. subst sp. intros [= <-] Hn. destruct ss.
      * pose proof (SFtrunc_nonpos mp ep). lia.
      * exists ms, es, mp, ep. repeat (split; [done|]).
        apply SFtrunc_pos_bounds.
Qed.

Lemma large_value : Prim2SF 0x1p1023 = S754_finite false 4503599627370496 971.
Proof. reflexivity. Qed.

(** A quotient by a number that is at least one, when the dividend is below
    2^1023 and the quotient is not below a positive number: all three are
    positive finite numbers. *)
Lemma positive_quotient a w q mw ew ms es :
  Prim2SF w = S754_finite false mw ew ->
  (1 <= inject_Z (Z.pos mw) * pow2 ew)%Q ->
  (a <? 0x1p1023)%float = true ->
  Prim2SF q = SF64div (Prim2SF a) (Prim2SF w) ->
  valid_binary (S754_finite false ms es) = true ->
  SFltb (Prim2SF q) (S754_finite false ms es) = false ->
  exists ma ea mq eq,
    Prim2SF a = S754_finite false ma ea /\
    Prim2SF q = S754_finite false mq eq /\
    SF64div (S754_finite false ma ea) (S754_finite false mw ew) =
      S754_finite false mq eq /\
    (inject_Z (Z.pos ms) * pow2 es <= inject_Z (Z.pos mq) * pow2 eq)%Q.
Proof.
  intros Hw HW. rewrite FloatAxioms.ltb_spec, large_value, Hw.
  pose proof (Prim2SF_valid a) as Hva. pose proof (Prim2SF_valid q) as Hvq.
  destruct (Prim2SF a) as [sa|sa| |sa ma ea]; try done.
  - intros _ Hq _. rewrite Hq. by destruct sa.
  - destruct sa; [|done]. intros _ Hq _. by rewrite Hq.
  - intros Ha Hq Hvs Hlt.
    pose proof (SFdiv_finite_sign sa ma ea false mw ew) as Hs.
    rewrite <- Hq in Hs.
    destruct sa.
    { destruct (Prim2SF q) as [sq|sq| |sq mq eq]; simpl in Hs; try done;
        subst; discriminate Hlt. }
    apply SFltb_true_value in Ha; [|done..].
    assert (inject_Z (Z.pos 4503599627370496) * pow2 971 == pow2 1023)%Q as Hb.
    { change 1023 with (52 + 971). rewrite pow2_add, (pow2_inject 52) by lia.
      reflexivity. }
    rewrite Hb in Ha.
    pose proof (SFdiv_no_overflow ma ea mw ew false Hva Ha HW) as Hno.
    rewrite <- Hq in Hno.
    destruct (Prim2SF q) as [sq|sq| |sq mq eq]; simpl in Hs; try done;
      subst; try discriminate Hlt; try done.
    exists ma, ea, mq, eq. repeat (split; [done|]).
    by apply SFltb_false_value.
Qed.

Lemma fit_arith (n P W S q A UP Uq : Q) :
  (n <= P -> P <= W * S + UP -> UP <= P * pow2 (-52) ->
   S <= q -> 0 <= W ->
   q * W <= A + Uq * W -> Uq <= q * pow2 (-52) ->
   n * (1 - pow2 (-52)) ^ 2 <= A)%Q.
Proof.
  assert (pow2 (-52) == 1 # 4503599627370496)%Q as -> by reflexivity.
  intros H1 H2 H3 H4 HW H5 H6.
  assert (S * W <= q * W)%Q as H7 by (apply Qmult_le_compat_r; assumption).
  assert (Uq * W <= q * (1 # 4503599627370496) * W)%Q as H8
    by (apply Qmult_le_compat_r; assumption).
  simpl Qpower. lra.
Qed.

(** One dimension of the block: the image dimension [w] times a factor [s]
    that is not above the ratio [a / w], truncated.  Each of the two
    operations rounds to nearest, so the block exceeds the available
    dimension [a] by at most two roundings. *)
Lemma fitted_dimension a w q s n :
  0 < w < 2 ^ 53 ->
  (a <? 0x1p1023)%float = true ->
  truediv a (float_of_int w) = inr q ->
  (q <? s)%float = false ->
  int_of_float (float_of_int w * s) = inr n ->
  1 <= n ->
  (inject_Z n * (1 - pow2 (-52)) ^ 2 <= float_value a)%Q.
Proof.
  intros Hw Ha Hq Hlt Hn H1.
  destruct (float_of_int_exact w Hw) as (mw & ew & HW & HWv).
  apply truediv_inv in Hq as [_ Hq]; [|lia].
  destruct (positive_product _ _ _ _ _ HW Hn H1)
    as (ms & es & mp & ep & Hs & Hp & Hmul & Hnp).
  rewrite FloatAxioms.ltb_spec, Hs in Hlt.
  pose proof (Prim2SF_valid s) as Hvs. rewrite Hs in Hvs.
  assert (1 <= inject_Z (Z.pos mw) * pow2 ew)%Q as HW1.
  { rewrite HWv. change 1%Q with (inject_Z 1). rewrite <- Zle_Qle. lia. }
  destruct (positive_quotient a _ q mw ew ms es HW HW1 Ha Hq Hvs Hlt)
    as (ma & ea & mq & eq & HA & HQ & Hdiv & Hsq).
  unfold float_value. rewrite HA. simpl SF2Q.
  pose proof (Prim2SF_valid (float_of_int w * s)) as Hvp. rewrite Hp in Hvp.
  pose proof (Prim2SF_valid q) as Hvq. rewrite HQ in Hvq.
  apply SFmul_upper in Hmul. apply SFdiv_upper in Hdiv.
  assert (1 <= inject_Z n)%Q as Hn1.
  { change 1%Q with (inject_Z 1). by rewrite <- Zle_Qle. }
  assert (pow2 (-52) == 1 # 4503599627370496)%Q as Hu by reflexivity.
  set (P := (inject_Z (Z.pos mp) * pow2 ep)%Q) in *.
  set (W := (inject_Z (Z.pos mw) * pow2 ew)%Q) in *.
  set (S := (inject_Z (Z.pos ms) * pow2 es)%Q) in *.
  set (R := (inject_Z (Z.pos mq) * pow2 eq)%Q) in *.
  set (A := (inject_Z (Z.pos ma) * pow2 ea)%Q) in *.
  destruct (ulp_le _ _ _ Hvp) as [HuP|HeP].
  2: { apply (subnormal_lt _ _ _ Hvp) in HeP. fold P in HeP.
       pose proof (pow2_le (-1021) 0 ltac:(lia)) as Hle. rewrite pow2_0 in Hle.
       lra. }
  fold P in HuP.
  assert (S * W <= R * W)%Q as HSR by (apply Qmult_le_compat_r; lra).
  destruct (ulp_le _ _ _ Hvq) as [HuR|HeR].
  2: { apply (subnormal_lt _ _ _ Hvq) in HeR. fold R in HeR.
       assert (R * W <= pow2 (-1021) * W)%Q as HRW
         by (apply Qmult_le_compat_r; lra).
       assert (pow2 (-1021) * W == inject_Z w * pow2 (-1021))%Q as HWs
         by (rewrite HWv; ring).
       assert (inject_Z w * pow2 (-1021) <= inject_Z (2 ^ 53) * pow2 (-1021))%Q as Hw53
         by (apply scaled_le; lia).
       rewrite <- (pow2_inject 53), <- pow2_add in Hw53 by lia.
       pose proof (pow2_le (53 + -1021) (-1) ltac:(lia)) as Hle.
       assert (pow2 (-1) == 1 # 2)%Q as Hhalf by reflexivity.
       rewrite Hu in HuP. lra. }
  fold R in HuR.
  apply (fit_arith _ P W S R A (pow2 ep) (pow2 eq)); try assumption. lra.
Qed.

Lemma resize_at_least_one img w h img' :
  resize img (w, h) = inr img' -> 1 <= w /\ 1 <= h.
Proof.
  unfold resize. destruct (_ || _ || _ || _); [done|].
  destruct ((w <? 1) || (h <? 1)) eqn:E; [done|].
  apply orb_false_iff in E as [?%Z.ltb_ge ?%Z.ltb_ge]. done.
Qed.

(** ** The block on the page *)

(** With the page fitted and the aspect ratio kept: where the block is put
    and how large it is. *)
Lemma fitted_block img page_width page_height img' x y nw nh :
  0 < width img < 2 ^ 53 -> 0 < height img < 2 ^ 53 ->
  (available page_width <? 0x1p1023)%float = true ->
  (available page_height <? 0x1p1023)%float = true ->
  placement img (page_width, page_height) true true = inr (img', (x, y), (nw, nh)) ->
  x = centred page_width nw /\ y = centred page_height nh /\
  size img' = (nw, nh) /\ 1 <= nw /\ 1 <= nh /\
  (inject_Z nw * (1 - pow2 (-52)) ^ 2 <= float_value (available page_width))%Q /\
  (inject_Z nh * (1 - pow2 (-52)) ^ 2 <= float_value (available page_height))%Q.
Proof.
  intros Hiw Hih Haw Hah. unfold placement, new_size. unfold_monad.
  destruct (truediv (available page_width) _) as [e|width_ratio] eqn:Hw; [done|].
  destruct (truediv (available page_height) _) as [e|height_ratio] eqn:Hh; [done|].
  destruct (int_of_float (float_of_int (width img) * _)) as [e|nw'] eqn:Hnw; [done|].
  destruct (int_of_float (float_of_int (height img) * _)) as [e|nh'] eqn:Hnh; [done|].
  destruct (resize img (nw', nh')) as [e|img''] eqn:Hr; [done|].
  intros [= <- <- <- <- <-].
  destruct (py_min_spec width_ratio height_ratio) as (_ & H2 & H3).
  destruct (resize_at_least_one _ _ _ _ Hr) as [H1w H1h].
  repeat (split; [done|]).
  split; [exact (resize_size _ _ _ _ Hr)|]. repeat (split; [done|]).
  split.
  - by apply (fitted_dimension _ (width img) width_ratio
                (py_min width_ratio height_ratio)).
  - by apply (fitted_dimension _ (height img) height_ratio
                (py_min width_ratio height_ratio)).
Qed.




(** An image too thin for the page is refused: its height would become 0. *)
Lemma thin_image_is_refused :
  placement (rgb 10000 1) letter true true = inl ValueError.
Proof. vm_compute. reflexivity. Qed.

(** When the room between the margins is not within a rounding error below
    a whole number, the block fits in it. *)
Lemma fits_exactly (n k : Z) (a : Q) :
  (inject_Z k <= a)%Q ->
  (a < (inject_Z k + 1) * (1 - pow2 (-52)) ^ 2)%Q ->
  (inject_Z n * (1 - pow2 (-52)) ^ 2 <= a)%Q ->
  (inject_Z n <= a)%Q.
Proof.
  assert (pow2 (-52) == 1 # 4503599627370496)%Q as -> by reflexivity.
  simpl Qpower. intros Hk Ha Hn.
  assert (n < k + 1) as Hlt.
  { rewrite Zlt_Qlt, inject_Z_plus. change (inject_Z 1) with 1%Q. lra. }
  assert (n <= k) as Hle by lia. rewrite Zle_Qle in Hle. lra.
Qed.

(** On the two page sizes the program uses, letter by default and A4 in
    [main], the block fits between the margins. *)
Lemma block_fits_standard_pages img page_size img' position nw nh :
  page_size = letter \/ page_size = A4 ->
  0 < width img < 2 ^ 53 -> 0 < height img < 2 ^ 53 ->
  placement img page_size true true = inr (img', position, (nw, nh)) ->
  (inject_Z nw <= float_value (available page_size.1))%Q /\
  (inject_Z nh <= float_value (available page_size.2))%Q.
Proof.
  intros Hp Hw Hh Hpl. destruct position as [x y].
  destruct Hp as [-> | ->].
  - change letter with (letter.1, letter.2) in Hpl.
    apply fitted_block in Hpl as (_ & _ & _ & _ & _ & Hnw & Hnh);
      [|exact Hw|exact Hh|vm_compute; reflexivity|vm_compute; reflexivity].
    split.
    + apply (fits_exactly nw 572); [vm_compute; discriminate|vm_compute; reflexivity|exact Hnw].
    + apply (fits_exactly nh 752); [vm_compute; discriminate|vm_compute; reflexivity|exact Hnh].
  - change A4 with (A4.1, A4.2) in Hpl.
    apply fitted_block in Hpl as (_ & _ & _ & _ & _ & Hnw & Hnh);
      [|exact Hw|exact Hh|vm_compute; reflexivity|vm_compute; reflexivity].
    split.
    + apply (fits_exactly nw 555); [vm_compute; discriminate|vm_compute; reflexivity|exact Hnw].
    + apply (fits_exactly nh 801); [vm_compute; discriminate|vm_compute; reflexivity|exact Hnh].
Qed.

(** * More on the run of the merger *)

Lemma elem_of_listing (entries : gmap string node) f :
  f ∈ listing entries <-> is_Some (entries !! f).
Proof.
  unfold listing, sorted. rewrite merge_sort_Permutation, list_elem_of_fmap. split.
  - intros ([k x] & -> & Hx). apply elem_of_map_to_list in Hx. by eexists.
  - intros [x Hx]. exists (f, x). split; [done|]. by apply elem_of_map_to_list.
Qed.

Section Loop.

Variables (output_pdf : string) (page_size : float * float).
Variables (fit_to_page maintain_aspect_ratio : bool) (quality dpi : Z).

Local Abbreviation process :=
  (process_entry page_size fit_to_page maintain_aspect_ratio quality dpi).
Local Abbreviation contrib i :=
  (contribution i page_size fit_to_page maintain_aspect_ratio quality dpi).
Local Abbreviation run :=
  (merge_all_to_pdf output_pdf page_size fit_to_page maintain_aspect_ratio
     quality dpi).
Local Abbreviation suite :=
  (merge_suite output_pdf page_size fit_to_page maintain_aspect_ratio
     quality dpi).

(** No directory has the name of a temporary file. *)
Local Abbreviation clear st :=
  (forall f, ~ is_directory (cwd st !! temp_name f)).


Lemma frame_not_directory st st' k :
  frame st st' -> ~ is_directory (cwd st !! k) -> ~ is_directory (cwd st' !! k).
Proof.
  intros Hfr Hk [ch Hch]. destruct (frame_cwd _ _ Hfr k) as [E|[_ [c Hc]]].
  - apply Hk. exists ch. congruence.
  - congruence.
Qed.

Lemma add_pages_temp_files f pages st st1 :
  add_pages (classify f) (temp_name f) pages st = (st1, inr tt) ->
  temp_files st1 = temp_files st ++ (temp_name <$> filter is_image [f]).
Proof.
  rewrite filter_cons, filter_nil. unfold is_image.
  destruct (classify f) eqn:E; simpl; try case_decide; try done.
  - intros [= <-]. simpl. by rewrite app_nil_r.
  - destruct (cwd st !! temp_name f) as [[c|ch]|]; intros [= <-]; done.
  - intros [= <-]. by rewrite app_nil_r.
Qed.

(** The temporary files the loop has recorded when it ends well. *)
Lemma loop_temp_files l st st1 :
  for_each l process st = (st1, inr tt) ->
  temp_files st1 = temp_files st ++ (temp_name <$> filter is_image l).
Proof.
  revert st. induction l as [|f l IH]; intros st.
  - simpl. intros [= <-]. by rewrite app_nil_r.
  - simpl for_each. unfold bind.
    destruct (process f st) as [st2 [e|[]]] eqn:E; [done|].
    intros Hl. rewrite (IH _ Hl).
    rewrite process_entry_eq in E.
    destruct (contrib (input_folder st) f) as [e|pages]; [done|].
    rewrite (add_pages_temp_files _ _ _ _ E).
    change (f :: l) with ([f] ++ l). rewrite (filter_app _ [f] l), fmap_app.
    by rewrite app_assoc.
Qed.

(** When nothing is in the way, the entries that contribute are gone
    through. *)
Lemma loop_goes_on l st :
  clear st ->
  (forall g, g ∈ l -> exists pages, contrib (input_folder st) g = inr pages) ->
  exists st1, for_each l process st = (st1, inr tt).
Proof.
  revert st. induction l as [|f l IH]; intros st Hclear Hl.
  - by eexists.
  - destruct (Hl f ltac:(by left)) as [pages Hf].
    pose proof (process_frame page_size fit_to_page maintain_aspect_ratio
                  quality dpi f st) as Hfr.
    assert (exists st2, process f st = (st2, inr tt)) as [st2 E].
    { rewrite process_entry_eq, Hf. unfold add_pages.
      destruct (classify f); [by eexists| |by eexists].
      destruct (cwd st !! temp_name f) as [[c|ch]|] eqn:Ec; [by eexists| |by eexists].
      destruct (Hclear f). rewrite Ec. by eexists. }
    rewrite E in Hfr. simpl in Hfr.
    rewrite (for_each_cons_ok _ _ _ _ _ E). apply IH.
    + intros g. by apply (frame_not_directory st).
    + intros g Hg. rewrite (frame_input _ _ Hfr). apply Hl. by right.
Qed.

(** The first entry that does not contribute ends the loop, with its
    exception. *)
Lemma loop_first_failure l1 f l2 e st :
  clear st ->
  (forall g, g ∈ l1 -> exists pages, contrib (input_folder st) g = inr pages) ->
  contrib (input_folder st) f = inl e ->
  exists st1, for_each (l1 ++ f :: l2) process st = (st1, inl e).
Proof.
  revert st. induction l1 as [|g l1 IH]; intros st Hclear Hl Hf.
  - eexists. simpl app. apply for_each_cons_raise.
    by rewrite process_entry_eq, Hf.
  - destruct (loop_goes_on [g] st Hclear) as [st2 E].
    { intros g' ->%list_elem_of_singleton. apply Hl. by left. }
    simpl in E. unfold bind in E.
    pose proof (process_frame page_size fit_to_page maintain_aspect_ratio
                  quality dpi g st) as Hfr.
    destruct (process g st) as [st3 [e'|[]]] eqn:Eg; [done|].
    simpl in Hfr. simpl app. rewrite (for_each_cons_ok _ _ _ _ _ Eg).
    apply IH.
    + intros g'. by apply (frame_not_directory st).
    + intros g' Hg'. rewrite (frame_input _ _ Hfr). apply Hl. by right.
    + by rewrite (frame_input _ _ Hfr).
Qed.


End Loop.

(** The console after a run, from the outcome of the [try] suite. *)
Lemma run_stdout output_pdf page_size fit maintain quality dpi st st1 r :
  merge_suite output_pdf page_size fit maintain quality dpi (fresh st) = (st1, r) ->
  stdout (merge_all_to_pdf output_pdf page_size fit maintain quality dpi st).1 =
  stdout st ++
    [match r with
     | inl e => Error_occurred e
     | inr _ => Successfully_created output_pdf
     end].
Proof.
  intros E. rewrite (run_outcome _ _ _ _ _ _ _ _ _ E).
  destruct (suite_outcome _ _ _ _ _ _ (fresh st) eq_refl _ _ E) as (_ & Hout & _).
  simpl in Hout. destruct r as [e|[]]; simpl; rewrite Hout; [|done].
  by rewrite app_nil_r.
Qed.

(** X1. When no directory has the name of a temporary file, the error a
    run reports is the one of the first entry, in file-name order, that
    cannot be read or converted: the entries after it are not looked at. *)
Theorem first_failure_is_reported output_pdf page_size fit maintain quality dpi
    st entries l1 f l2 e :
  input_folder st = Folder entries ->
  (forall g, ~ is_directory (cwd st !! temp_name g)) ->
  listing entries = l1 ++ f :: l2 ->
  (forall g, g ∈ l1 ->
     exists pages,
       contribution (Folder entries) page_size fit maintain quality dpi g = inr pages) ->
  contribution (Folder entries) page_size fit maintain quality dpi f = inl e ->
  stdout (merge_all_to_pdf output_pdf page_size fit maintain quality dpi st).1 =
    stdout st ++ [Error_occurred e].
Proof.
  intros Hin Hclear Hl Hl1 Hf.
  destruct (loop_first_failure page_size fit maintain quality dpi l1 f l2 e (fresh st))
    as [st1 E]; [done|by simpl; rewrite Hin..|].
  rewrite (run_stdout _ _ _ _ _ _ st st1 (inl e)); [done|].
  rewrite suite_eq. simpl. by rewrite Hin, Hl, E.
Qed.

Lemma first_failure_witness :
  stdout (merge_all_to_pdf "out.pdf" letter true true 85 300
            (start (Folder folder_with_broken_image))).1 =
    [] ++ [Error_occurred UnidentifiedImageError].
Proof.
  apply (first_failure_is_reported "out.pdf" letter true true 85 300
           (start (Folder folder_with_broken_image)) folder_with_broken_image
           ["a.pdf"] "b.png" ["c.pdf"] UnidentifiedImageError).
  - reflexivity.
  - intros g [ch H]. simpl in H. by rewrite lookup_empty in H.
  - vm_compute. reflexivity.
  - intros g ->%list_elem_of_singleton. exists [SourcePage 1]. vm_compute. reflexivity.
  - vm_compute. reflexivity.
Defined.

Lemma Forall2_elem_of_l {A B} (P : A -> B -> Prop) l k x :
  Forall2 P l k -> x ∈ l -> exists y, P x y.
Proof.
  induction 1 as [|a b l k Hab _ IH]; [by intros ?%elem_of_nil|].
  intros [->|Hx]%elem_of_cons; [by eexists|by apply IH].
Qed.

(** X2. When no directory has the name of a temporary file or of the
    output, a run succeeds exactly when every entry of the folder can be
    read and converted. *)
Theorem run_succeeds_iff_every_entry_contributes output_pdf page_size fit maintain
    quality dpi st entries :
  input_folder st = Folder entries ->
  (forall g, ~ is_directory (cwd st !! temp_name g)) ->
  ~ is_directory (cwd st !! output_pdf) ->
  stdout (merge_all_to_pdf output_pdf page_size fit maintain quality dpi st).1 =
    stdout st ++ [Successfully_created output_pdf] <->
  forall f, is_Some (entries !! f) ->
    exists pages,
      contribution (Folder entries) page_size fit maintain quality dpi f = inr pages.
Proof.
  intros Hin Hclear Hout.
  destruct (merge_suite output_pdf page_size fit maintain quality dpi (fresh st))
    as [st1 r] eqn:E.
  rewrite (run_stdout _ _ _ _ _ _ st st1 r E).
  rewrite suite_eq in E. simpl in E. rewrite Hin in E.
  split.
  - intros Hmsg f Hf%elem_of_listing.
    destruct r as [e|[]]; [apply app_inv_head in Hmsg; discriminate|].
    destruct (for_each _ _ (fresh st)) as [st2 [e|[]]] eqn:El; [done|].
    destruct (loop_merger _ _ _ _ _ _ _ _ El) as (pss & Hpss & _).
    simpl in Hpss. rewrite Hin in Hpss.
    apply (Forall2_elem_of_l _ _ _ _ Hpss Hf).
  - intros Hall.
    destruct (loop_goes_on page_size fit maintain quality dpi
                (listing entries) (fresh st)) as [st2 El]; [done|..].
    { intros g Hg%elem_of_listing. simpl. rewrite Hin. by apply Hall. }
    pose proof (loop_frame page_size fit maintain quality dpi
                  (listing entries) (fresh st)) as Hfr.
    rewrite El in E, Hfr. simpl in Hfr.
    apply (frame_not_directory _ _ output_pdf Hfr) in Hout.
    destruct (cwd st2 !! output_pdf) as [[c|ch]|] eqn:Eo.
    + by injection E as <- <-.
    + destruct Hout. by eexists.
    + by injection E as <- <-.
Qed.

(** The sample folder: its two images, its document and its text file all
    contribute. *)
Lemma run_succeeds_witness :
  stdout (merge_all_to_pdf "out.pdf" letter true true 85 300
            (start (Folder sample_folder))).1 =
    [] ++ [Successfully_created "out.pdf"] <->
  forall f, is_Some (sample_folder !! f) ->
    exists pages,
      contribution (Folder sample_folder) letter true true 85 300 f = inr pages.
Proof.
  apply (run_succeeds_iff_every_entry_contributes "out.pdf" letter true true 85 300
           (start (Folder sample_folder)) sample_folder).
  - reflexivity.
  - intros g [ch H]. simpl in H. by rewrite lookup_empty in H.
  - intros [ch H]. simpl in H. by rewrite lookup_empty in H.
Defined.



(** X4. After a run that succeeds, no file has the name of a temporary
    file of an image of the folder, whatever had that name before the run
    and even if it is the name of the output; every other name, the output
    apart, holds what it held before. *)
Theorem successful_run_directory output_pdf page_size fit maintain quality dpi
    st entries k :
  input_folder st = Folder entries ->
  stdout (merge_all_to_pdf output_pdf page_size fit maintain quality dpi st).1 =
    stdout st ++ [Successfully_created output_pdf] ->
  (k ∈ temporary_names entries ->
   cwd (merge_all_to_pdf output_pdf page_size fit maintain quality dpi st).1 !! k =
   None) /\
  (k ∉ temporary_names entries -> k <> output_pdf ->
   cwd (merge_all_to_pdf output_pdf page_size fit maintain quality dpi st).1 !! k =
   cwd st !! k).
Proof.
  intros Hin.
  destruct (merge_suite output_pdf page_size fit maintain quality dpi (fresh st))
    as [st1 r] eqn:E.
  rewrite (run_stdout _ _ _ _ _ _ st st1 r E), (run_outcome _ _ _ _ _ _ _ _ _ E).
  intros Hmsg. destruct r as [e'|[]]; [apply app_inv_head in Hmsg; discriminate|].
  rewrite suite_eq in E. simpl in E. rewrite Hin in E.
  pose proof (loop_frame page_size fit maintain quality dpi
                (listing entries) (fresh st)) as Hfr.
  destruct (for_each _ _ (fresh st)) as [st2 [e|[]]] eqn:El; [done|].
  apply loop_temp_files in El. simpl in El, Hfr.
  assert (temp_files st1 = temporary_names entries /\
          forall k, k <> output_pdf -> cwd st1 !! k = cwd st2 !! k) as [Ht Hc].
  { destruct (cwd st2 !! output_pdf) as [[c|ch]|]; try done.
    all: injection E as <-; simpl; split; [done|].
    all: intros k' Hk'; by rewrite lookup_insert_ne. }
  simpl. rewrite Ht. split.
  - apply lookup_foldr_delete.
  - intros Hk Hne. rewrite lookup_foldr_delete_not_elem_of by done.
    rewrite Hc by done.
    destruct (frame_cwd _ _ Hfr k) as [Hsame|[Hk' _]]; [exact Hsame|].
    by rewrite El in Hk'.
Qed.

(** A file that had the name of a temporary file is gone after the run. *)
Lemma successful_run_witness :
  let st := with_cwd {[temp_name "a.png" := File OtherData; "kept" := File OtherData]}
              (start (Folder sample_folder)) in
  (temp_name "a.png" ∈ temporary_names sample_folder ->
   cwd (merge_all_to_pdf "out.pdf" letter true true 85 300 st).1 !! temp_name "a.png" =
   None) /\
  (temp_name "a.png" ∉ temporary_names sample_folder -> temp_name "a.png" <> "out.pdf" ->
   cwd (merge_all_to_pdf "out.pdf" letter true true 85 300 st).1 !! temp_name "a.png" =
   cwd st !! temp_name "a.png").
Proof.
  apply (successful_run_directory "out.pdf" letter true true 85 300 _ sample_folder).
  - reflexivity.
  - vm_compute. reflexivity.
Defined.

Lemma loop_nothing_recognized page_size fit maintain quality dpi l st :
  (forall f, f ∈ l -> classify f = Ignored) ->
  for_each l (process_entry page_size fit maintain quality dpi) st = (st, inr tt).
Proof.
  induction l as [|f l IH]; intros Hl; [done|].
  rewrite (for_each_cons_ok _ _ _ _ st).
  - apply IH. intros g Hg. apply Hl. by right.
  - rewrite process_entry_eq. unfold contribution, add_pages.
    by rewrite (Hl f ltac:(by left)).
Qed.

Lemma run_nothing_recognized output_pdf page_size fit maintain quality dpi
    st entries :
  input_folder st = Folder entries ->
  (forall f, is_Some (entries !! f) -> classify f = Ignored) ->
  ~ is_directory (cwd st !! output_pdf) ->
  stdout (merge_all_to_pdf output_pdf page_size fit maintain quality dpi st).1 =
    stdout st ++ [Successfully_created output_pdf] /\
  cwd (merge_all_to_pdf output_pdf page_size fit maintain quality dpi st).1 =
    <[output_pdf := File (PdfData [])]> (cwd st).
Proof.
  intros Hin Hall Hout.
  assert (merge_suite output_pdf page_size fit maintain quality dpi (fresh st) =
          (with_stdout (stdout st ++ [Successfully_created output_pdf])
             (with_cwd (<[output_pdf := File (PdfData [])]> (cwd st)) (fresh st)),
           inr tt)) as E.
  { rewrite suite_eq. simpl. rewrite Hin, loop_nothing_recognized.
    - simpl. destruct (cwd st !! output_pdf) as [[c|ch]|] eqn:Eo; try done.
      destruct Hout. by eexists.
    - intros f Hf%elem_of_listing. by apply Hall. }
  rewrite (run_stdout _ _ _ _ _ _ _ _ _ E), (run_outcome _ _ _ _ _ _ _ _ _ E).
  done.
Qed.

(** X5. A folder that holds no document and no image, an empty folder for
    one, is merged into an output without pages: the run reports a success
    and the working directory only gains the output. *)
Theorem nothing_recognized_gives_empty_output output_pdf page_size fit maintain
    quality dpi st entries :
  input_folder st = Folder entries ->
  (forall f, is_Some (entries !! f) -> classify f = Ignored) ->
  ~ is_directory (cwd st !! output_pdf) ->
  stdout (merge_all_to_pdf output_pdf page_size fit maintain quality dpi st).1 =
    stdout st ++ [Successfully_created output_pdf] /\
  cwd (merge_all_to_pdf output_pdf page_size fit maintain quality dpi st).1 =
    <[output_pdf := File (PdfData [])]> (cwd st).
Proof. apply run_nothing_recognized. Qed.

Lemma nothing_recognized_witness :
  stdout (merge_all_to_pdf "out.pdf" letter true true 85 300
            (start (Folder {["notes.txt" := File OtherData]}))).1 =
    [] ++ [Successfully_created "out.pdf"] /\
  cwd (merge_all_to_pdf "out.pdf" letter true true 85 300
         (start (Folder {["notes.txt" := File OtherData]}))).1 =
    <["out.pdf" := File (PdfData [])]> ∅.
Proof.
  apply (nothing_recognized_gives_empty_output "out.pdf" letter true true 85 300
           (start (Folder {["notes.txt" := File OtherData]}))
           {["notes.txt" := File OtherData]}).
  - reflexivity.
  - intros f [x Hx]. apply lookup_singleton_Some in Hx as [<- _]. reflexivity.
  - intros [ch H]. simpl in H. by rewrite lookup_empty in H.
Defined.

(** X6. When the input path does not exist, or is a file and not a
    directory, the run reports the error of the listing; it writes and
    removes nothing, and it returns normally. *)
Theorem listing_failure_is_reported output_pdf page_size fit maintain quality dpi
    st e :
  input_folder st = Absent /\ e = FileNotFoundError \/
  input_folder st = RegularFile /\ e = NotADirectoryError ->
  merge_all_to_pdf output_pdf page_size fit maintain quality dpi st =
  (with_temp_files []
     (with_merger [] (with_stdout (stdout st ++ [Error_occurred e]) st)),
   inr tt).
Proof.
  intros H.
  assert (merge_suite output_pdf page_size fit maintain quality dpi (fresh st) =
          (fresh st, inl e)) as E.
  { rewrite suite_eq. simpl. by destruct H as [[-> ->]|[-> ->]]. }
  by rewrite (run_outcome _ _ _ _ _ _ _ _ _ E).
Qed.

Lemma listing_failure_witness :
  merge_all_to_pdf "out.pdf" letter true true 85 300 (start RegularFile) =
  (with_temp_files []
     (with_merger []
        (with_stdout (stdout (start RegularFile) ++ [Error_occurred NotADirectoryError])
           (start RegularFile))),
   inr tt).
Proof.
  apply (listing_failure_is_reported "out.pdf" letter true true 85 300
           (start RegularFile) NotADirectoryError).
  right. split; reflexivity.
Defined.

(** * More on the converter *)

Lemma draw_settings img page_size fit maintain quality dpi d :
  draw img page_size fit maintain quality dpi = inr d ->
  pagesize d = page_size /\ jpeg_quality d = quality /\ jpeg_dpi d = dpi /\
  preserveAspectRatio d = maintain.
Proof.
  by intros (img' & x & y & nw & nh & _ & _ & _ & _ & ->)%draw_inv.
Qed.

(** X7. The converter writes its output in one go at the end: when it
    raises, whatever the reason, nothing has changed; when it returns, the
    output path holds a document of exactly one page, of the page size asked
    for, and nothing else has changed. *)
Theorem conversion_writes_one_page_or_nothing image_path output_pdf_path page_size
    fit maintain quality dpi st :
  match convert_image_to_pdf image_path output_pdf_path page_size fit maintain
          quality dpi st with
  | (st', inl e) => st' = st
  | (st', inr _) =>
      exists img d,
        Image_open image_path st = (st, inr img) /\
        draw img page_size fit maintain quality dpi = inr d /\
        pagesize d = page_size /\
        st' = with_cwd (<[output_pdf_path := File (PdfData [ImagePage d])]> (cwd st)) st
  end.
Proof.
  unfold convert_image_to_pdf, write_file. unfold_monad.
  pose proof (Image_open_state image_path st) as Hst.
  destruct (Image_open image_path st) as [st1 [e|img]]; simpl in Hst; subst st1;
    [done|].
  simpl. destruct (draw _ _ _ _ _ _) as [e|d] eqn:Hd; [done|].
  destruct (cwd st !! output_pdf_path) as [[c|ch]|]; simpl; try done.
  all: exists img, d; repeat (split; [done|]).
  all: split; [by apply draw_settings in Hd as (? & _)|done].
Qed.

(** X8. The image put on the page is always in RGB, whatever the mode of
    the source image, and it has as many pixels as the block is wide and
    high in points. *)
Theorem drawn_image_is_rgb img page_size fit maintain quality dpi d :
  draw img page_size fit maintain quality dpi = inr d ->
  mode (jpeg d) = "RGB" /\ size (jpeg d) = (new_width d, new_height d).
Proof.
  intros (img' & x & y & nw & nh & Hp & _ & _ & _ & ->)%draw_inv. simpl.
  revert Hp.
  set (img0 := if String.eqb (mode img) "RGB" then img else convert img "RGB").
  assert (mode img0 = "RGB") as Hmode.
  { unfold img0. destruct (String.eqb (mode img) "RGB") eqn:E; [|done].
    by apply String.eqb_eq. }
  unfold placement. destruct fit.
  - unfold_monad. destruct (new_size _ _ _) as [e|[nw' nh']]; [done|].
    destruct (resize img0 (nw', nh')) as [e|img''] eqn:Hr; [done|].
    intros [= <- <- <- <- <-]. split; [|exact (resize_size _ _ _ _ Hr)].
    revert Hr. unfold resize. destruct (_ || _ || _ || _); [done|].
    destruct (_ || _); [done|]. by intros [= <-].
  - unfold_monad. by intros [= <- <- <- <- <-].
Qed.

(** A CMYK image of 200 by 50 on a letter page. *)
Lemma drawn_image_witness :
  mode (jpeg {| pagesize := letter; jpeg := rgb 572 143; jpeg_quality := 85;
                jpeg_dpi := 300; x_pos := centred letter.1 572;
                y_pos := centred letter.2 143; new_width := 572;
                new_height := 143; preserveAspectRatio := true |}) = "RGB" /\
  size (jpeg {| pagesize := letter; jpeg := rgb 572 143; jpeg_quality := 85;
                jpeg_dpi := 300; x_pos := centred letter.1 572;
                y_pos := centred letter.2 143; new_width := 572;
                new_height := 143; preserveAspectRatio := true |}) = (572, 143).
Proof.
  apply (drawn_image_is_rgb (cmyk 200 50) letter true true 85 300).
  vm_compute. reflexivity.
Defined.

(** ** Stretching the image over the room between the margins *)




(** ** The two page sizes of the program *)

(** X13. On a letter page, the default, and on an A4 page, the one the
    script asks for, a block that keeps the aspect ratio fits between the
    20-unit margins, rounding included, whatever the image. *)
Theorem block_fits_on_letter_and_A4 img page_size img' position nw nh :
  page_size = letter \/ page_size = A4 ->
  0 < width img < 2 ^ 53 -> 0 < height img < 2 ^ 53 ->
  placement img page_size true true = inr (img', position, (nw, nh)) ->
  (inject_Z nw <= float_value (available page_size.1))%Q /\
  (inject_Z nh <= float_value (available page_size.2))%Q.
Proof. apply block_fits_standard_pages. Qed.

Lemma block_fits_on_letter_witness :
  (inject_Z 572 <= float_value (available letter.1))%Q /\
  (inject_Z 143 <= float_value (available letter.2))%Q.
Proof.
  apply (block_fits_on_letter_and_A4 (rgb 200 50) letter (rgb 572 143)
           (centred letter.1 572, centred letter.2 143) 572 143).
  - by left.
  - simpl; lia.
  - simpl; lia.
  - vm_compute. reflexivity.
Defined.

(** * More on the script *)

Lemma main_present st :
  input_folder st = RegularFile \/ (exists entries, input_folder st = Folder entries) ->
  main st = merge_all_to_pdf output_pdf_file A4 true true 90 300 st.
Proof.
  intros H. unfold main, os_path_exists. unfold_monad.
  by destruct H as [->|[entries ->]].
Qed.

(** X10. The script ends with an exception in one case only: the input
    directory is missing and [os.makedirs], which is outside any [try],
    cannot create it; nothing has been printed then.  Where it creates the
    directory it prints the two set-up lines; where the path exists it
    prints one line, a success or an error, returns normally and leaves the
    directory as it is. *)
Theorem main_raises_only_from_makedirs st :
  match input_folder st with
  | Absent =>
      main st =
      (with_stdout (stdout st ++ [Created_input_directory; Please_add_files])
         (with_input (Folder ∅) st), inr tt)
  | Unwritable => main st = (st, inl PermissionError)
  | DanglingLink => main st = (st, inl FileExistsError)
  | RegularFile | Folder _ =>
      exists st',
        main st = (st', inr tt) /\
        input_folder st' = input_folder st /\
        (stdout st' = stdout st ++ [Successfully_created output_pdf_file] \/
         exists e, stdout st' = stdout st ++ [Error_occurred e])
  end.
Proof.
  assert (input_folder st = RegularFile \/
          (exists entries, input_folder st = Folder entries) ->
          exists st',
            main st = (st', inr tt) /\
            input_folder st' = input_folder st /\
            (stdout st' = stdout st ++ [Successfully_created output_pdf_file] \/
             exists e, stdout st' = stdout st ++ [Error_occurred e])) as Hmerge.
  { intros Hin. rewrite (main_present st Hin).
    destruct (merge_suite output_pdf_file A4 true true 90 300 (fresh st))
      as [st1 r] eqn:E.
    pose proof (run_stdout _ _ _ _ _ _ _ _ _ E) as Hout.
    destruct (suite_outcome _ _ _ _ _ _ (fresh st) eq_refl _ _ E) as (Hi & _).
    rewrite (run_outcome _ _ _ _ _ _ _ _ _ E) in Hout |- *.
    eexists. split; [reflexivity|]. split.
    - simpl in Hi. by destruct r as [e|[]].
    - destruct r as [e|[]]; [right; by exists e|by left]. }
  destruct (input_folder st) as [| |entries| |] eqn:Hin.
  - unfold main, os_path_exists, os_makedirs, print. unfold_monad.
    rewrite Hin. simpl. rewrite Hin. simpl. by rewrite <- app_assoc.
  - apply Hmerge. by left.
  - apply Hmerge. right. by eexists.
  - unfold main, os_path_exists, os_makedirs, print. unfold_monad.
    rewrite Hin. simpl. by rewrite Hin.
  - unfold main, os_path_exists, os_makedirs, print. unfold_monad.
    rewrite Hin. simpl. by rewrite Hin.
Qed.

(** X11. Run twice where there is no input directory, the script first
    creates the directory and then merges it, empty as it is: the second run
    reports a success and leaves an output without pages. *)
Theorem script_run_twice st :
  input_folder st = Absent ->
  ~ is_directory (cwd st !! output_pdf_file) ->
  (main (main st).1).2 = inr tt /\
  stdout (main (main st).1).1 =
    stdout st ++ [Created_input_directory; Please_add_files;
                  Successfully_created output_pdf_file] /\
  cwd (main (main st).1).1 = <[output_pdf_file := File (PdfData [])]> (cwd st).
Proof.
  intros Hin Hout.
  assert (exists st1, main st = (st1, inr tt) /\ input_folder st1 = Folder ∅ /\
            stdout st1 = stdout st ++ [Created_input_directory; Please_add_files] /\
            cwd st1 = cwd st) as (st1 & -> & Hi1 & Ho1 & Hc1).
  { unfold main, os_path_exists, os_makedirs, print. unfold_monad.
    rewrite Hin. simpl. rewrite Hin. eexists. split; [reflexivity|]. simpl.
    by rewrite <- app_assoc. }
  simpl. rewrite main_present by (right; by eexists).
  destruct (run_nothing_recognized output_pdf_file A4 true true 90 300 st1 ∅ Hi1)
    as [Ho2 Hc2].
  { intros f [x Hx]. by rewrite lookup_empty in Hx. }
  { by rewrite Hc1. }
  split.
  - destruct (merge_suite output_pdf_file A4 true true 90 300 (fresh st1))
      as [st2 r] eqn:E.
    by rewrite (run_outcome _ _ _ _ _ _ _ _ _ E).
  - rewrite Ho2, Hc2, Ho1, Hc1. by rewrite <- app_assoc.
Qed.

Lemma script_run_twice_witness :
  (main (main (start Absent)).1).2 = inr tt /\
  stdout (main (main (start Absent)).1).1 =
    [] ++ [Created_input_directory; Please_add_files;
           Successfully_created output_pdf_file] /\
  cwd (main (main (start Absent)).1).1 = <[output_pdf_file := File (PdfData [])]> ∅.
Proof.
  apply (script_run_twice (start Absent)).
  - reflexivity.
  - intros [ch H]. simpl in H. by rewrite lookup_empty in H.
Defined.

(** * Running the merger again *)

Section Again.

Variables (output_pdf : string) (page_size : float * float).
Variables (fit_to_page maintain_aspect_ratio : bool) (quality dpi : Z).

Local Abbreviation process :=
  (process_entry page_size fit_to_page maintain_aspect_ratio quality dpi).
Local Abbreviation run :=
  (merge_all_to_pdf output_pdf page_size fit_to_page maintain_aspect_ratio
     quality dpi).
Local Abbreviation suite :=
  (merge_suite output_pdf page_size fit_to_page maintain_aspect_ratio
     quality dpi).

#[local] Instance keeps_directories_preorder : PreOrder keeps_directories.
Proof.
  split.
  - by intros st k _.
  - intros a b c Hab Hbc k Hk. rewrite <- (Hab k Hk). apply Hbc.
    by rewrite (Hab k Hk).
Qed.

Lemma insert_keeps_directories st k c st' :
  ~ is_directory (cwd st !! k) ->
  cwd st' = <[k := File c]> (cwd st) ->
  keeps_directories st st'.
Proof.
  intros Hk Hc k' Hk'. rewrite Hc. apply lookup_insert_ne. by intros ->.
Qed.

Lemma process_keeps_directories f st : keeps_directories st (process f st).1.
Proof.
  rewrite process_entry_eq.
  destruct (contribution _ _ _ _ _ _ _) as [e|pages]; [done|].
  unfold add_pages. destruct (classify f); [done| |done].
  destruct (cwd st !! temp_name f) as [[c|ch]|] eqn:E; [|done|].
  all: apply (insert_keeps_directories st (temp_name f) (PdfData pages)); [|done].
  all: rewrite E; by intros [ch Hch].
Qed.

Lemma suite_keeps_directories st st1 r :
  suite st = (st1, r) -> keeps_directories st st1.
Proof.
  rewrite suite_eq. destruct (input_folder st) as [| |entries| |].
  1,2,4,5: by intros [= <- _].
  pose proof (for_each_rel keeps_directories process (listing entries)
                process_keeps_directories st) as Hk.
  destruct (for_each _ _ st) as [st2 [e|[]]]; simpl in Hk.
  - by intros [= <- _].
  - destruct (cwd st2 !! output_pdf) as [[c|ch]|] eqn:E.
    2: by intros [= <- _].
    all: intros [= <- _]; etrans; [exact Hk|].
    all: apply (insert_keeps_directories st2 output_pdf (PdfData (merger st2)));
      [|done].
    all: rewrite E; by intros [ch Hch].
Qed.

(** Where the suite leaves a name that is not a recorded temporary file. *)
Lemma suite_cwd st st1 r k :
  suite st = (st1, r) -> k ∉ temp_files st1 ->
  cwd st1 !! k =
  match r with
  | inr _ =>
      if decide (k = output_pdf) then Some (File (PdfData (merger st1)))
      else cwd st !! k
  | inl _ => cwd st !! k
  end.
Proof.
  rewrite suite_eq. destruct (input_folder st) as [| |entries| |].
  1,2,4,5: by intros [= <- <-].
  pose proof (loop_frame page_size fit_to_page maintain_aspect_ratio quality dpi
                (listing entries) st) as Hfr.
  destruct (for_each _ _ st) as [st2 [e|[]]]; simpl in Hfr.
  - intros [= <- <-] Hk. by destruct (frame_cwd _ _ Hfr k) as [?|[? _]].
  - destruct (cwd st2 !! output_pdf) as [[c|ch]|] eqn:E.
    2: intros [= <- <-] Hk; by destruct (frame_cwd _ _ Hfr k) as [?|[? _]].
    all: intros [= <- <-] Hk; simpl in *; case_decide as Hd;
      [subst k; by rewrite lookup_insert_eq|rewrite lookup_insert_ne by done].
    all: by destruct (frame_cwd _ _ Hfr k) as [?|[? _]].
Qed.

Lemma alike_insert t c st st' (f : state -> state) :
  alike st st' ->
  (forall s, input_folder (f s) = input_folder s /\ cwd (f s) = <[t := File c]> (cwd s)) ->
  merger (f st) = merger (f st') -> temp_files (f st) = temp_files (f st') ->
  alike (f st) (f st').
Proof.
  intros (Hi & _ & _ & Hd) Hf Hm Ht.
  destruct (Hf st) as [Hi1 Hc1], (Hf st') as [Hi2 Hc2].
  repeat split; try congruence.
  - rewrite Hc1, Hc2. destruct (decide (k = t)) as [->|Hne].
    + rewrite !lookup_insert_eq. by intros [ch Hch].
    + rewrite !lookup_insert_ne by done. apply Hd.
  - rewrite Hc1, Hc2. destruct (decide (k = t)) as [->|Hne].
    + rewrite !lookup_insert_eq. by intros [ch Hch].
    + rewrite !lookup_insert_ne by done. apply Hd.
Qed.

Ltac directory_mismatch H :=
  exfalso; destruct H as [H1 H2];
  first [ destruct H1 as [? ?]; [by eexists|done]
        | destruct H2 as [? ?]; [by eexists|done]
        | destruct H1 as [? ?]; [done|by eexists]
        | destruct H2 as [? ?]; [done|by eexists] ].

Lemma add_pages_alike k t pages st st' :
  alike st st' ->
  (add_pages k t pages st).2 = (add_pages k t pages st').2 /\
  alike (add_pages k t pages st).1 (add_pages k t pages st').1.
Proof.
  intros H. pose proof H as (Hi & Hm & Ht & Hd). unfold add_pages. destruct k.
  - split; [done|]. repeat split; simpl; try congruence; apply Hd.
  - pose proof (Hd t) as Hdt.
    destruct (cwd st !! t) as [[c|ch]|] eqn:E, (cwd st' !! t) as [[c'|ch']|] eqn:E'.
    all: first
      [ directory_mismatch Hdt
      | by split
      | split; [done|]; simpl;
        apply (alike_insert t (PdfData pages) st st'
                 (fun s => with_temp_files (temp_files s ++ [t])
                             (with_merger (merger s ++ pages)
                                (with_cwd (<[t := File (PdfData pages)]> (cwd s)) s))));
        [done|by intros s; split|simpl; congruence|simpl; congruence] ].
  - by split.
Qed.

Lemma process_alike f st st' :
  alike st st' ->
  (process f st).2 = (process f st').2 /\ alike (process f st).1 (process f st').1.
Proof.
  intros H. rewrite !process_entry_eq. pose proof H as (Hi & _). rewrite <- Hi.
  destruct (contribution _ _ _ _ _ _ _) as [e|pages]; [by split|].
  by apply add_pages_alike.
Qed.

Lemma loop_alike l st st' :
  alike st st' ->
  (for_each l process st).2 = (for_each l process st').2 /\
  alike (for_each l process st).1 (for_each l process st').1.
Proof.
  revert st st'. induction l as [|f l IH]; intros st st' H; [done|].
  simpl. unfold bind. destruct (process_alike f st st' H) as [Hr Ha].
  destruct (process f st) as [st1 [e|[]]], (process f st') as [st1' [e'|[]]];
    simpl in *; try done.
  by apply IH.
Qed.

Lemma suite_alike st st' :
  alike st st' ->
  (suite st).2 = (suite st').2 /\ alike (suite st).1 (suite st').1.
Proof.
  intros H. rewrite !suite_eq. pose proof H as (Hi & _). rewrite <- Hi.
  destruct (input_folder st) as [| |entries| |]; [done|done| |done|done].
  destruct (loop_alike (listing entries) st st' H) as [Hr Ha].
  destruct (for_each _ _ st) as [st1 [e|[]]], (for_each _ _ st') as [st1' [e'|[]]];
    simpl in *; try done.
  pose proof Ha as (Hi1 & Hm1 & Ht1 & Hd1). pose proof (Hd1 output_pdf) as Hdo.
  rewrite Hm1.
  destruct (cwd st1 !! output_pdf) as [[c|ch]|] eqn:E,
           (cwd st1' !! output_pdf) as [[c'|ch']|] eqn:E'.
  all: first
    [ directory_mismatch Hdo
    | by split
    | split; [done|]; simpl;
      apply (alike_insert output_pdf (PdfData (merger st1')) st1 st1'
               (fun s => with_stdout (stdout s ++ [Successfully_created output_pdf])
                           (with_cwd (<[output_pdf := File (PdfData (merger st1'))]>
                                        (cwd s)) s)));
      [done|by intros s; split|simpl; congruence|simpl; congruence] ].
Qed.

(** The outcome of a run, with the state the suite ended in. *)
Lemma run_parts st st1 r :
  suite (fresh st) = (st1, r) ->
  input_folder (run st).1 = input_folder st /\
  cwd (run st).1 = foldr delete (cwd st1) (temp_files st1) /\
  (forall k, k ∈ temp_files st1 -> is_file (cwd st1 !! k)).
Proof.
  intros E. rewrite (run_outcome _ _ _ _ _ _ _ _ _ E).
  destruct (suite_outcome output_pdf page_size fit_to_page maintain_aspect_ratio
              quality dpi (fresh st) eq_refl _ _ E) as (Hi & _ & Ht & _).
  split; [by destruct r as [e|[]]|]. split; [by destruct r as [e|[]]|].
  intros k Hk. by apply Ht.
Qed.

(** A run leaves directories where they were, and makes none. *)
Lemma run_same_directories st : same_directories (cwd st) (cwd (run st).1).
Proof.
  destruct (suite (fresh st)) as [st1 r] eqn:E.
  destruct (run_parts st st1 r E) as (_ & -> & Hfile).
  pose proof (suite_keeps_directories _ _ _ E) as Hkeep.
  intros k. destruct (decide (k ∈ temp_files st1)) as [Hk|Hk].
  - rewrite lookup_foldr_delete by done. split; [|by intros [ch Hch]].
    intros Hd. destruct (Hfile k Hk) as [c Hc].
    rewrite (Hkeep k Hd) in Hc. simpl in Hc. destruct Hd as [ch Hch]. congruence.
  - rewrite lookup_foldr_delete_not_elem_of by done.
    rewrite (suite_cwd _ _ _ _ E Hk). destruct r as [e|[]]; [done|].
    case_decide as Hout; [|done]. split; [|by intros [ch Hch]].
    intros Hd. pose proof (Hkeep k Hd) as Hsame.
    rewrite (suite_cwd _ _ _ _ E Hk), decide_True in Hsame by done.
    simpl in Hsame. destruct Hd as [ch Hch]. congruence.
Qed.

Lemma run_again st st2 :
  input_folder st2 = input_folder st ->
  cwd st2 = cwd (run st).1 ->
  cwd (run st2).1 = cwd (run st).1 /\
  exists msg,
    stdout (run st).1 = stdout st ++ [msg] /\
    stdout (run st2).1 = stdout st2 ++ [msg].
Proof.
  intros Hin2 Hcwd2.
  destruct (suite (fresh st)) as [st1 r] eqn:E1.
  destruct (suite (fresh st2)) as [st1' r'] eqn:E2.
  destruct (run_parts st st1 r E1) as (Hi1 & Hc1 & _).
  destruct (run_parts st2 st1' r' E2) as (_ & Hc2 & _).
  assert (alike (fresh st) (fresh st2)) as Ha.
  { repeat split; simpl; try done; rewrite Hcwd2; apply run_same_directories. }
  apply suite_alike in Ha as [Hr (_ & Hm & Ht & _)].
  rewrite E1, E2 in Hr, Hm, Ht. simpl in Hr, Hm, Ht. subst r'.
  split.
  - rewrite Hc2, Hc1, <- Ht. apply map_eq. intros k.
    destruct (decide (k ∈ temp_files st1)) as [Hk|Hk].
    + by rewrite !lookup_foldr_delete.
    + rewrite !lookup_foldr_delete_not_elem_of by done.
      rewrite (suite_cwd _ _ _ _ E2) by (by rewrite <- Ht).
      rewrite (suite_cwd _ _ _ _ E1 Hk), <- Hm. simpl.
      assert (cwd st2 !! k = cwd st1 !! k) as Hk1.
      { rewrite Hcwd2, Hc1. by apply lookup_foldr_delete_not_elem_of. }
      rewrite Hk1, (suite_cwd _ _ _ _ E1 Hk).
      destruct r as [e|[]]; [done|]. by case_decide.
  - eexists. split; [exact (run_stdout _ _ _ _ _ _ _ _ _ E1)|].
    exact (run_stdout _ _ _ _ _ _ _ _ _ E2).
Qed.

End Again.

(** X12. A second run that finds in the input folder what the first run
    found there (the output and the temporary files are written outside
    it), and starts in the working directory the first run left, prints the
    message of the first run again, a success or the same error, and leaves
    the working directory, the output with it, as the first run left it. *)
Theorem rerun_changes_nothing output_pdf page_size fit maintain quality dpi st st2 :
  let first := merge_all_to_pdf output_pdf page_size fit maintain quality dpi st in
  input_folder st2 = input_folder st ->
  cwd st2 = cwd first.1 ->
  let second := merge_all_to_pdf output_pdf page_size fit maintain quality dpi st2 in
  cwd second.1 = cwd first.1 /\
  exists msg,
    stdout first.1 = stdout st ++ [msg] /\
    stdout second.1 = stdout st2 ++ [msg].
Proof. apply run_again. Qed.

(** The sample folder merged twice in a row. *)
Lemma rerun_witness :
  let first :=
    merge_all_to_pdf "out.pdf" letter true true 85 300 (start (Folder sample_folder)) in
  let second := merge_all_to_pdf "out.pdf" letter true true 85 300 first.1 in
  cwd second.1 = cwd first.1 /\
  exists msg,
    stdout first.1 = stdout (start (Folder sample_folder)) ++ [msg] /\
    stdout second.1 = stdout first.1 ++ [msg].
Proof.
  apply (rerun_changes_nothing "out.pdf" letter true true 85 300
           (start (Folder sample_folder))
           (merge_all_to_pdf "out.pdf" letter true true 85 300
              (start (Folder sample_folder))).1).
  - vm_compute. reflexivity.
  - reflexivity.
Defined.
